(** * node-netezza: a shallow embedding of the connection and pool code

    [src/connection.ts] (the Netezza wire-protocol client) and
    [src/pool.ts] (the connection pool) are modelled here.  Bytes are
    integers in [0, 255], a [Buffer] is a [list Z], the socket's arrival
    events are a list, and the asynchronous methods of [Connection] run
    in a small state/exception monad over the session state.  JavaScript
    strings are Rocq [string]s whose UTF-8 encoding is taken byte per
    character (all protocol text involved is ASCII). *)

From Stdlib Require Import ZArith List String Ascii Bool Lia DecimalString.
From Stdlib Require Floats.SpecFloat.
Import ListNotations.
Open Scope Z_scope.

(** ** Byte helpers ([Buffer] reads and writes) *)

Definition byte_of_ascii (c : ascii) : Z := Z.of_nat (nat_of_ascii c).
Definition ascii_of_byte (b : Z) : ascii := ascii_of_nat (Z.to_nat b).

(** [Buffer.from(s, 'utf8')] for ASCII text. *)
Definition bytes_of_string (s : string) : list Z :=
  map byte_of_ascii (list_ascii_of_string s).

(** [buf.toString('utf8')] for ASCII bytes. *)
Definition string_of_bytes (l : list Z) : string :=
  string_of_list_ascii (map ascii_of_byte l).

(** [writeUInt16BE] / [writeInt16BE]. *)
Definition be16 (v : Z) : list Z :=
  [Z.land (Z.shiftr v 8) 255; Z.land v 255].

(** [writeInt32BE]: two's complement, most significant byte first. *)
Definition be32 (v : Z) : list Z :=
  [Z.land (Z.shiftr v 24) 255; Z.land (Z.shiftr v 16) 255;
   Z.land (Z.shiftr v 8) 255; Z.land v 255].

(** The unsigned value of big-endian bytes. *)
Definition be_unsigned (l : list Z) : Z :=
  fold_left (fun acc b => acc * 256 + b) l 0.

(** [readInt32BE(offset)]: a [RangeError] ([None]) unless four bytes are
    there. *)
Definition readInt32BE (data : list Z) (off : Z) : option Z :=
  if (0 <=? off) && (off + 4 <=? Z.of_nat (List.length data)) then
    let v := be_unsigned (firstn 4 (skipn (Z.to_nat off) data)) in
    Some (if v >=? 2 ^ 31 then v - 2 ^ 32 else v)
  else None.

(** [readInt16BE(offset)]. *)
Definition readInt16BE (data : list Z) (off : Z) : option Z :=
  if (0 <=? off) && (off + 2 <=? Z.of_nat (List.length data)) then
    let v := be_unsigned (firstn 2 (skipn (Z.to_nat off) data)) in
    Some (if v >=? 2 ^ 15 then v - 2 ^ 16 else v)
  else None.

(** [readUInt8(offset)]. *)
Definition readUInt8 (data : list Z) (off : Z) : option Z :=
  if (0 <=? off) && (off + 1 <=? Z.of_nat (List.length data)) then
    Some (nth (Z.to_nat off) data 0)
  else None.

(** [buf[i]]: out of range it is [undefined], which every bit operation
    of the code turns into [0]. *)
Definition byte_at (data : list Z) (i : Z) : Z :=
  if (0 <=? i) && (i <? Z.of_nat (List.length data)) then nth (Z.to_nat i) data 0
  else 0.

(** Index normalisation of [Buffer.slice]: negative from the end, then
    clamped to [0, length]. *)
Definition slice_index (len i : Z) : Z :=
  if i <? 0 then Z.max 0 (len + i) else Z.min i len.

(** [buf.slice(start, end)]. *)
Definition js_slice (b : list Z) (start end_ : Z) : list Z :=
  let len := Z.of_nat (List.length b) in
  let s := slice_index len start in
  let e := slice_index len end_ in
  if e <=? s then []
  else firstn (Z.to_nat (e - s)) (skipn (Z.to_nat s) b).

(** [buf.slice(start)]. *)
Definition js_slice_from (b : list Z) (start : Z) : list Z :=
  js_slice b start (Z.of_nat (List.length b)).

(** ** Numbers

    A JavaScript Number is an IEEE 754 binary64 value.  [js_number_of_Z n]
    is the Number nearest the integer [n] (ties to even, [Infinity] past
    the largest finite double): what [parseInt] of its decimal digits and
    the arithmetic of the code produce for it. *)
Definition js_number_of_Z (n : Z) : SpecFloat.spec_float :=
  SpecFloat.binary_normalize 53 1024 n 0 false.

(** The decimal digits of a positive integer. *)
Definition decimal_Z (n : Z) : string := NilZero.string_of_int (Z.to_int n).

(** The value [m * 2^e] of a finite double that is an integer. *)
Definition float_int_value (m : positive) (e : Z) : Z :=
  if 0 <=? e then Z.pos m * 2 ^ e else Z.pos m / 2 ^ (- e).

(** Step 5 of [Number::toString] (ECMA-262, radix 10) for a positive
    integer-valued [x] of value [v]: the fewest significant digits [s]
    (the largest power [10^j]) such that [s * 10^j] denotes [x]; among
    two candidates the one nearer [v], on a tie the even one. *)
Fixpoint shortest_digits (x : SpecFloat.spec_float) (v : Z) (fuel : nat) (j : Z) : Z * Z :=
  match fuel with
  | O => (v, 0)
  | S f =>
      let u := 10 ^ j in
      let lo := v / u in
      let ok (c : Z) := (0 <? c) && SpecFloat.SFeqb (js_number_of_Z (c * u)) x in
      match ok lo, ok (lo + 1) with
      | true, true =>
          let dlo := v - lo * u in
          let dhi := (lo + 1) * u - v in
          if dlo <? dhi then (lo, j)
          else if dhi <? dlo then (lo + 1, j)
          else if Z.even lo then (lo, j) else (lo + 1, j)
      | true, false => (lo, j)
      | false, true => (lo + 1, j)
      | false, false => shortest_digits x v f (j - 1)
      end
  end.

(** Steps 6 and 9 of [Number::toString]: plain digits below [1e21],
    exponent notation from there on. *)
Definition number_to_string_pos (x : SpecFloat.spec_float) (v : Z) : string :=
  let d := Z.of_nat (String.length (decimal_Z v)) in
  let (s, j) := shortest_digits x v (S (Z.to_nat d)) d in
  let w := s * 10 ^ j in
  let n := Z.of_nat (String.length (decimal_Z w)) in
  if n <=? 21 then decimal_Z w
  else match decimal_Z s with
       | String c EmptyString => String c ("e+" ++ decimal_Z (n - 1))
       | String c rest => String c ("." ++ rest ++ "e+" ++ decimal_Z (n - 1))
       | EmptyString => EmptyString
       end.

(** [String(n)] (and a template literal [`${n}`]) for the Number that
    the integer [n] denotes. *)
Definition js_string_of_Z (n : Z) : string :=
  match js_number_of_Z n with
  | SpecFloat.S754_zero _ => "0"
  | SpecFloat.S754_infinity b => if b then "-Infinity" else "Infinity"
  | SpecFloat.S754_nan => "NaN"
  | SpecFloat.S754_finite b m e =>
      (if b then "-" else "")
      ++ number_to_string_pos (SpecFloat.S754_finite false m e) (float_int_value m e)
  end.

(** ** Errors ([src/errors.ts]) *)

Inductive nz_error :=
| InterfaceError (msg : string)
| OperationalError (msg : string)
| ConnectionClosedError (msg : string)
| DatabaseError (msg : string)
| RangeError.

(** [ConnectionClosedError extends InterfaceError]. *)
Definition is_interface_error (e : nz_error) : bool :=
  match e with
  | InterfaceError _ | ConnectionClosedError _ => true
  | _ => false
  end.

(** ** The socket and [readBytes]

    What the transport delivers while a read is pending: a chunk of
    data, an ['error'] event or an ['end'] event (clean remote close).
    The ['data'] listener installed by [connect] appends every chunk to
    [this.buffer]. *)
Inductive sock_event :=
| EvData (chunk : list Z)
| EvError (msg : string)
| EvEnd.

(** The outcome of [readBytes(count)]: the bytes returned with the
    buffer and the events left, a rejection, or suspended forever (no
    further event arrives). *)
Inductive read_outcome :=
| ReadDone (result : list Z) (rest : list Z) (evs : list sock_event)
| ReadFailed (e : nz_error) (buf : list Z) (evs : list sock_event)
| ReadPending (buf : list Z).

(** [readBytes(count)]: while the buffer is shorter than [count], await
    [waitForData()], which resolves on the next ['data'] event and
    rejects on ['error'] or ['end']; then return [slice(0, count)] and
    keep [slice(count)]. *)
Fixpoint readBytes_ev (count : Z) (buf : list Z) (evs : list sock_event)
  : read_outcome :=
  if Z.of_nat (List.length buf) <? count then
    match evs with
    | [] => ReadPending buf
    | EvData d :: evs' => readBytes_ev count (buf ++ d) evs'
    | EvError m :: evs' =>
        ReadFailed (OperationalError ("Socket error: " ++ m)) buf evs'
    | EvEnd :: evs' =>
        ReadFailed (ConnectionClosedError "Connection closed by server") buf evs'
    end
  else ReadDone (js_slice buf 0 count) (js_slice_from buf count) evs.

(** [buf.toString('utf8', start, end)] as [lib/buffer.js] normalises its
    bounds: a non-positive start is [0], a start past the end gives [''],
    an end past the length is the length, and [end <= start] gives ['']. *)
Definition js_toString (b : list Z) (start end_ : Z) : string :=
  let len := Z.of_nat (List.length b) in
  let s := if start <=? 0 then 0 else start in
  if len <=? s then EmptyString
  else
    let e := if len <? end_ then len else end_ in
    if e <=? s then EmptyString
    else string_of_bytes (firstn (Z.to_nat (e - s)) (skipn (Z.to_nat s) b)).

(** ** Protocol constants ([src/protocol.ts], values as its unit tests
    state them) *)

Definition CP_VERSION_2 : Z := 2.
Definition CP_VERSION_6 : Z := 6.
Definition HSV2_CLIENT_BEGIN : Z := 1.
Definition HSV2_DB : Z := 2.
Definition HSV2_USER : Z := 3.
Definition HSV2_REMOTE_PID : Z := 6.
Definition HSV2_CLIENT_TYPE : Z := 8.
Definition HSV2_PROTOCOL : Z := 9.
Definition HSV2_SSL_NEGOTIATE : Z := 11.
Definition HSV2_SSL_CONNECT : Z := 12.
Definition HSV2_CLIENT_DONE : Z := 1000.
Definition PG_PROTOCOL_3 : Z := 3.
Definition PG_PROTOCOL_5 : Z := 5.
Definition NPSCLIENT_TYPE_NODEJS : Z := 14.
Definition AUTH_REQ_OK : Z := 0.
Definition AUTH_REQ_PASSWORD : Z := 3.
Definition AUTH_REQ_MD5 : Z := 5.
Definition AUTH_REQ_SHA256 : Z := 6.
Definition MESSAGE_TYPE_AUTHENTICATION : Z := 82.      (* 'R' *)
Definition MESSAGE_TYPE_BACKEND_KEY_DATA : Z := 75.    (* 'K' *)
Definition MESSAGE_TYPE_COMMAND_COMPLETE : Z := 67.    (* 'C' *)
Definition MESSAGE_TYPE_DATA_ROW : Z := 68.            (* 'D' *)
Definition MESSAGE_TYPE_EMPTY_QUERY : Z := 73.         (* 'I' *)
Definition MESSAGE_TYPE_ERROR_RESPONSE : Z := 69.      (* 'E' *)
Definition MESSAGE_TYPE_NOTICE_RESPONSE : Z := 78.     (* 'N' *)
Definition MESSAGE_TYPE_PARAMETER_STATUS : Z := 83.    (* 'S' *)
Definition MESSAGE_TYPE_READY_FOR_QUERY : Z := 90.     (* 'Z' *)
Definition MESSAGE_TYPE_ROW_DESCRIPTION : Z := 84.     (* 'T' *)
Definition MESSAGE_TYPE_QUERY : Z := 81.               (* 'Q' *)
Definition MESSAGE_TYPE_PARSE : Z := 80.               (* 'P' *)
Definition MESSAGE_TYPE_BIND : Z := 66.                (* 'B' *)
Definition TRANSACTION_STATUS_IDLE : Z := 73.          (* 'I' *)

(** ** Session state *)

Record ConnectionOptions := mkOptions {
  user : string;
  password : string;
  database : string;
  securityLevel : option Z;          (* [undefined] is [None] *)
  rowMode_array : bool               (* [rowMode === 'array'] *)
}.

(** What the world around one [Connection] decides: the external
    [crypto] digests and [Buffer]'s base64 text (as ASCII codes), the
    outcome of the TLS handshake of [upgradeToTLS] ([None]: the
    ['secureConnect'] event; [Some m]: an ['error'] event), and
    [process.pid]. *)
Record Env := mkEnv {
  md5 : list Z -> list Z;
  sha256 : list Z -> list Z;
  base64 : list Z -> list Z;
  tls_handshake : option string;
  process_pid : Z
}.

Record Session := mkSession {
  options : ConnectionOptions;
  has_socket : bool;                 (* [this.socket !== undefined] *)
  secure : bool;                     (* [this.socket] is the TLS socket *)
  buffer : list Z;
  events : list sock_event;          (* what the transport will deliver *)
  sent : list (list Z);              (* every [socket.write], in order *)
  closed : bool;
  transactionStatus : option Z;      (* [undefined] is [None] *)
  backendKeyData : option (Z * Z);
  hsVersion : option Z;
  protocol1 : option Z;
  protocol2 : Z
}.

(** [new Connection(options)] before [connect()], with the transport
    that will deliver [evs]. *)
Definition new_session (o : ConnectionOptions) (evs : list sock_event) : Session :=
  mkSession o false false [] evs [] false (Some TRANSACTION_STATUS_IDLE)
            None None None 0.

Definition set_io (s : Session) (buf : list Z) (evs : list sock_event) : Session :=
  mkSession s.(options) s.(has_socket) s.(secure) buf evs s.(sent) s.(closed)
            s.(transactionStatus) s.(backendKeyData) s.(hsVersion)
            s.(protocol1) s.(protocol2).

Definition add_sent (s : Session) (m : list Z) : Session :=
  mkSession s.(options) s.(has_socket) s.(secure) s.(buffer) s.(events)
            (s.(sent) ++ [m]) s.(closed) s.(transactionStatus)
            s.(backendKeyData) s.(hsVersion) s.(protocol1) s.(protocol2).

Definition set_socket (s : Session) (sock sec : bool) : Session :=
  mkSession s.(options) sock sec s.(buffer) s.(events) s.(sent) s.(closed)
            s.(transactionStatus) s.(backendKeyData) s.(hsVersion)
            s.(protocol1) s.(protocol2).

Definition set_txstatus (s : Session) (t : option Z) : Session :=
  mkSession s.(options) s.(has_socket) s.(secure) s.(buffer) s.(events)
            s.(sent) s.(closed) t s.(backendKeyData) s.(hsVersion)
            s.(protocol1) s.(protocol2).

Definition set_backend_key (s : Session) (k : Z * Z) : Session :=
  mkSession s.(options) s.(has_socket) s.(secure) s.(buffer) s.(events)
            s.(sent) s.(closed) s.(transactionStatus) (Some k) s.(hsVersion)
            s.(protocol1) s.(protocol2).

Definition set_versions (s : Session) (hv p1 : option Z) (p2 : Z) : Session :=
  mkSession s.(options) s.(has_socket) s.(secure) s.(buffer) s.(events)
            s.(sent) s.(closed) s.(transactionStatus) s.(backendKeyData)
            hv p1 p2.

(** ** The session monad

    An [async] method of [Connection] resolves ([Done]), rejects
    ([Throw]) or stays suspended forever because the transport delivers
    nothing more ([Hang]).  Loops of the code take a step budget;
    [NoFuel] only says the budget was too small and is never an outcome
    of the code.  [Unmodelled] marks a behaviour this development does
    not describe (see [parsed] below); no statement here concludes
    anything from it. *)
Inductive outcome (A : Type) :=
| Done (a : A) (s : Session)
| Throw (e : nz_error) (s : Session)
| Hang (s : Session)
| NoFuel
| Unmodelled.
Arguments Done {A}. Arguments Throw {A}. Arguments Hang {A}. Arguments NoFuel {A}.
Arguments Unmodelled {A}.

Definition M (A : Type) := Session -> outcome A.

Definition ret {A} (a : A) : M A := fun s => Done a s.
Definition throw {A} (e : nz_error) : M A := fun s => Throw e s.
Definition nofuel {A} : M A := fun _ => NoFuel.
Definition unmodelled {A} : M A := fun _ => Unmodelled.
Definition bind {A B} (m : M A) (k : A -> M B) : M B :=
  fun s => match m s with
           | Done a s' => k a s'
           | Throw e s' => Throw e s'
           | Hang s' => Hang s'
           | NoFuel => NoFuel
           | Unmodelled => Unmodelled
           end.
Definition get : M Session := fun s => Done s s.
Definition modify (f : Session -> Session) : M unit := fun s => Done tt (f s).

Declare Scope nz_scope.
Notation "x <- m ;; k" := (bind m (fun x => k))
  (at level 61, m at next level, right associativity) : nz_scope.
Notation "m ;;; k" := (bind m (fun _ => k))
  (at level 61, right associativity) : nz_scope.
Open Scope nz_scope.

(** [this.readBytes(count)] *)
Definition readBytes (count : Z) : M (list Z) :=
  fun s => if (Z.of_nat (List.length s.(buffer)) <? count) && negb s.(has_socket)
           then Throw (ConnectionClosedError "Connection is closed") s   (* [!this.socket] *)
           else match readBytes_ev count s.(buffer) s.(events) with
           | ReadDone r rest evs => Done r (set_io s rest evs)
           | ReadFailed e buf evs => Throw e (set_io s buf evs)
           | ReadPending buf => Hang (set_io s buf [])
           end.

(** [this.readInt32()] *)
Definition readInt32 : M Z :=
  b <- readBytes 4 ;;
  match readInt32BE b 0 with Some v => ret v | None => throw RangeError end.

(** [this.sendRawMessage(data)] *)
Definition sendRawMessage (data : list Z) : M unit :=
  s <- get ;;
  if s.(has_socket) then modify (fun s => add_sent s data)
  else throw (ConnectionClosedError "Connection is closed").

(** [this.sendMessage(data)]: a 4-byte length counting itself, then the
    payload. *)
Definition sendMessage (data : list Z) : M unit :=
  sendRawMessage (be32 (Z.of_nat (List.length data) + 4) ++ data).

(** The 4-byte-length-prefixed messages the handshake builds by hand. *)
Definition length_prefixed (payload : list Z) : list Z :=
  be32 (Z.of_nat (List.length payload) + 4) ++ payload.

(** The loops [while (true) { byte = readBytes(1); if (byte[0] === 0)
    break; errorMsg.push(byte[0]); }]. *)
Fixpoint read_cstring (fuel : nat) (acc : list Z) : M (list Z) :=
  match fuel with
  | O => nofuel
  | S f =>
      b <- readBytes 1 ;;
      if byte_at b 0 =? 0 then ret acc else read_cstring f (acc ++ [byte_at b 0])
  end.

(** ** Handshake ([Connection.negotiateHandshake] ... [performHandshake]) *)

(** The loop of [negotiateHandshake], from the proposal of [version]. *)
Fixpoint negotiate_loop (fuel : nat) (version : Z) : M unit :=
  match fuel with
  | O => nofuel
  | S f =>
      sendMessage (be16 HSV2_CLIENT_BEGIN ++ be16 version) ;;;
      response <- readBytes 1 ;;
      let r := byte_at response 0 in
      if r =? 78 then                                        (* 'N' *)
        modify (fun s => set_versions s (Some version) s.(protocol1) 0)
      else if r =? 77 then                                   (* 'M' *)
        versionByte <- readBytes 1 ;;
        let version' := byte_at versionByte 0 - 48 in
        if version' <? CP_VERSION_2
        then throw (InterfaceError "Unsupported handshake version")
        else negotiate_loop f version'
      else if r =? 69 then                                   (* 'E' *)
        throw (InterfaceError "Bad attribute value error")
      else throw (InterfaceError "Bad protocol error")
  end.

Definition negotiateHandshake (fuel : nat) : M unit :=
  negotiate_loop fuel CP_VERSION_6.

(** [upgradeToTLS]: the socket is wrapped by [tls.connect]; on
    ['secureConnect'] the TLS socket replaces it (the buffer is kept),
    [HSV2_SSL_CONNECT] is sent and one byte of confirmation is read. *)
Definition upgradeToTLS (env : Env) (fuel : nat) : M unit :=
  s <- get ;;
  if negb s.(has_socket) then
    throw (InterfaceError "No socket available for TLS upgrade")
  else
    match env.(tls_handshake) with
    | Some m => throw (OperationalError ("TLS connection error: " ++ m))
    | None =>
        modify (fun s => set_socket s true true) ;;;
        let lvl := match s.(options).(securityLevel) with
                   | Some l => l | None => 0 end in
        sendRawMessage (length_prefixed (be16 HSV2_SSL_CONNECT ++ be32 lvl)) ;;;
        confirmResp <- readBytes 1 ;;
        let c := byte_at confirmResp 0 in
        if c =? 78 then ret tt
        else if c =? 69 then
          errorMsg <- read_cstring fuel [] ;;
          throw (InterfaceError ("SSL connection error: "
                                   ++ string_of_bytes errorMsg))
        else throw (InterfaceError "Unexpected SSL connection response")
    end.

(** [sendHandshakeField(opcode, value)]: opcode, then the NUL-terminated
    value. *)
Definition sendHandshakeField (opcode : Z) (value : string) : M unit :=
  sendMessage (be16 opcode ++ bytes_of_string value ++ [0]).

(** An acknowledgment point: one byte that must be ['N']. *)
Definition expect_ack (msg : string) : M unit :=
  resp <- readBytes 1 ;;
  if byte_at resp 0 =? 78 then ret tt else throw (InterfaceError msg).

(** Step 2 of [sendHandshakeInfo]: [HSV2_SSL_NEGOTIATE] with the level,
    then one byte of answer. *)
Definition negotiate_security (env : Env) (fuel : nat) (sslLevel : Z) : M unit :=
  sendRawMessage (length_prefixed (be16 HSV2_SSL_NEGOTIATE ++ be32 sslLevel)) ;;;
  sslResp <- readBytes 1 ;;
  let r := byte_at sslResp 0 in
  if r =? 78 then ret tt                                     (* 'N' *)
  else if r =? 83 then upgradeToTLS env fuel                 (* 'S' *)
  else if r =? 69 then                                       (* 'E' *)
    errorMsg <- read_cstring fuel [] ;;
    throw (InterfaceError ("SSL negotiation error: " ++ string_of_bytes errorMsg))
  else ret tt.

(** [sendHandshakeInfo] *)
Definition sendHandshakeInfo (env : Env) (fuel : nat) : M unit :=
  s <- get ;;
  let o := s.(options) in
  (* 1. database, acknowledged *)
  sendHandshakeField HSV2_DB o.(database) ;;;
  expect_ack "Expected database acknowledgment" ;;;
  (* 2. security negotiation *)
  let sslLevel := match o.(securityLevel) with Some l => l | None => 0 end in
  negotiate_security env fuel sslLevel ;;;
  (* 3. user *)
  sendHandshakeField HSV2_USER o.(user) ;;;
  expect_ack "Expected user acknowledgment" ;;;
  (* protocol: opcode, protocol1, protocol2 *)
  modify (fun s => set_versions s s.(hsVersion) (Some PG_PROTOCOL_3) PG_PROTOCOL_5) ;;;
  sendRawMessage (length_prefixed (be16 HSV2_PROTOCOL ++ be16 PG_PROTOCOL_3
                                   ++ be16 PG_PROTOCOL_5)) ;;;
  resp <- readBytes 1 ;;
  (if byte_at resp 0 =? 69 then
     errorMsg <- read_cstring fuel [] ;;
     throw (InterfaceError ("Protocol error: " ++ string_of_bytes errorMsg))
   else if byte_at resp 0 =? 78 then ret tt
   else throw (InterfaceError "Expected protocol acknowledgment")) ;;;
  (* remote PID *)
  sendRawMessage (length_prefixed (be16 HSV2_REMOTE_PID ++ be32 env.(process_pid))) ;;;
  expect_ack "Expected PID acknowledgment" ;;;
  (* client type *)
  sendRawMessage (length_prefixed (be16 HSV2_CLIENT_TYPE
                                   ++ be16 NPSCLIENT_TYPE_NODEJS)) ;;;
  expect_ack "Expected client type acknowledgment" ;;;
  (* CLIENT_DONE: no acknowledgment *)
  sendRawMessage (length_prefixed (be16 HSV2_CLIENT_DONE)).

(** [.replace(/=+$/, '')]: drop the trailing run of ['='] (61). *)
Fixpoint drop_eq (l : list Z) : list Z :=
  match l with
  | b :: l' => if b =? 61 then drop_eq l' else l
  | [] => []
  end.
Definition strip_padding (s : list Z) : list Z := rev (drop_eq (rev s)).

(** [md5Password(user, password, salt)] and [sha256Password(password,
    salt)]: base64 of the digest of [salt ++ password], padding
    stripped. *)
Definition md5Password (env : Env) (usr password : string) (salt : list Z)
  : list Z :=
  strip_padding (env.(base64) (env.(md5) (salt ++ bytes_of_string password))).
Definition sha256Password (env : Env) (password : string) (salt : list Z)
  : list Z :=
  strip_padding (env.(base64) (env.(sha256) (salt ++ bytes_of_string password))).

(** The error text of [parseErrorResponse]: a 4-byte length, then the
    text. *)
Definition parseErrorResponse (data : list Z) : string :=
  if Z.of_nat (List.length data) <? 4 then "Unknown error"
  else match readInt32BE data 0 with
       | Some n => js_toString data 4 (4 + n)
       | None => "Unknown error"
       end.

(** [waitForAuthOk] *)
Definition waitForAuthOk : M unit :=
  messageType <- readBytes 1 ;;
  if negb (byte_at messageType 0 =? MESSAGE_TYPE_AUTHENTICATION) then
    throw (InterfaceError "Expected authentication response")
  else
    authType <- readInt32 ;;
    if negb (authType =? AUTH_REQ_OK) then
      throw (OperationalError "Authentication failed")
    else ret tt.

(** Sending a credential: 4-byte length counting itself, then the
    NUL-terminated text. *)
Definition credential_message (cred : list Z) : list Z :=
  be32 (Z.of_nat (List.length (cred ++ [0])) + 4) ++ (cred ++ [0]).

(** [authenticate] *)
Definition authenticate (env : Env) : M unit :=
  messageType <- readBytes 1 ;;
  let t := byte_at messageType 0 in
  if t =? MESSAGE_TYPE_ERROR_RESPONSE then
    lengthBytes <- readBytes 4 ;;
    match readInt32BE lengthBytes 0 with
    | None => throw RangeError
    | Some length =>
        errorData <- readBytes (length - 4) ;;
        throw (OperationalError ("Server error: " ++ parseErrorResponse errorData))
    end
  else if negb (t =? MESSAGE_TYPE_AUTHENTICATION) then
    throw (InterfaceError "Expected authentication request")
  else
    authType <- readInt32 ;;
    s <- get ;;
    let o := s.(options) in
    if authType =? AUTH_REQ_OK then ret tt
    else if authType =? AUTH_REQ_PASSWORD then
      sendRawMessage (credential_message (bytes_of_string o.(password))) ;;;
      waitForAuthOk
    else if authType =? AUTH_REQ_MD5 then
      salt <- readBytes 2 ;;
      sendRawMessage (credential_message (md5Password env o.(user) o.(password) salt)) ;;;
      waitForAuthOk
    else if authType =? AUTH_REQ_SHA256 then
      salt <- readBytes 2 ;;
      sendRawMessage (credential_message (sha256Password env o.(password) salt)) ;;;
      waitForAuthOk
    else throw (InterfaceError ("Unsupported authentication type: "
                                ++ js_string_of_Z authType)).

(** [waitForReady] *)
Fixpoint waitForReady (fuel : nat) : M unit :=
  match fuel with
  | O => nofuel
  | S f =>
      messageType <- readBytes 1 ;;
      let t := byte_at messageType 0 in
      if t =? MESSAGE_TYPE_AUTHENTICATION then
        authType <- readInt32 ;;
        if negb (authType =? AUTH_REQ_OK)
        then throw (OperationalError "Authentication failed in waitForReady")
        else waitForReady f
      else
        _unused <- readBytes 4 ;;
        length <- readInt32 ;;
        if t =? MESSAGE_TYPE_READY_FOR_QUERY then
          data <- readBytes length ;;
          modify (fun s => set_txstatus s (nth_error data 0))
        else if t =? MESSAGE_TYPE_BACKEND_KEY_DATA then
          pidBytes <- readBytes 4 ;;
          keyBytes <- readBytes 4 ;;
          match readInt32BE pidBytes 0, readInt32BE keyBytes 0 with
          | Some p, Some k => modify (fun s => set_backend_key s (p, k)) ;;; waitForReady f
          | _, _ => throw RangeError
          end
        else if t =? MESSAGE_TYPE_ERROR_RESPONSE then
          data <- readBytes length ;;
          throw (DatabaseError (parseErrorResponse data))
        else
          (* parameter status, notice and unknown messages are skipped *)
          readBytes length ;;; waitForReady f
  end.

Definition performHandshake (env : Env) (fuel : nat) : M unit :=
  negotiateHandshake fuel ;;;
  sendHandshakeInfo env fuel ;;;
  authenticate env ;;;
  waitForReady fuel.

(** [connect()]: the socket is created, and on ['connect'] the handshake
    runs.  (A transport ['error'] also rejects through the listener that
    [connect] installs, with the same [OperationalError] class.) *)
Definition connect (env : Env) (fuel : nat) : M unit :=
  s <- get ;;
  if s.(has_socket) then throw (InterfaceError "Connection already established")
  else modify (fun s => set_socket s true false) ;;; performHandshake env fuel.

(** ** Result sets ([parseRowDescription], [parseDataRow]) *)

Record FieldDescription := mkField {
  name : string;
  tableOid : Z;
  columnNumber : Z;
  typeOid : Z;
  typeSize : Z;
  typeMod : Z;
  formatCode : Z
}.

(** [String.prototype.toLowerCase] on ASCII letters. *)
Definition lower_ascii (c : ascii) : ascii :=
  let n := nat_of_ascii c in
  if (65 <=? n)%nat && (n <=? 90)%nat then ascii_of_nat (n + 32) else c.
Definition ascii_lower (s : string) : string :=
  string_of_list_ascii (map lower_ascii (list_ascii_of_string s)).

(** [toLowerCase] of a column name decoded from its bytes: [Some] of
    the result when every byte is ASCII; [None] when a byte is 128 or
    more, whose UTF-8 decoding and Unicode case mapping are not
    modelled. *)
Definition toLowerCase (s : string) : option string :=
  if forallb (fun c => (nat_of_ascii c <? 128)%nat) (list_ascii_of_string s)
  then Some (ascii_lower s)
  else None.

(** [buf.indexOf(0, byteOffset)]: [-1] when absent. *)
Fixpoint index_of_zero_from (l : list Z) (i : Z) : Z :=
  match l with
  | [] => -1
  | b :: l' => if b =? 0 then i else index_of_zero_from l' (i + 1)
  end.
Definition indexOf0 (data : list Z) (off : Z) : Z :=
  let len := Z.of_nat (List.length data) in
  let start := if off <? 0 then Z.max 0 (len + off) else off in
  if len <=? start then -1
  else index_of_zero_from (skipn (Z.to_nat start) data) start.

(** What a parser of a message returns: its result, the [RangeError]
    an out-of-range read of [Buffer] throws, or [ParseUnmodelled] when
    the code completes with a value this development does not compute
    (a non-ASCII column name, or a row object given a [Buffer] as
    prototype by a column named [__proto__], see [obj_set]). *)
Inductive parsed (A : Type) :=
| Parsed (a : A)
| ParseRangeError
| ParseUnmodelled.
Arguments Parsed {A}. Arguments ParseRangeError {A}. Arguments ParseUnmodelled {A}.

(** [parseRowDescription(data)]: the loop over the fields.  A read out
    of range throws whatever the names are ([toLowerCase] never
    throws). *)
Fixpoint parse_fields (data : list Z) (n : nat) (i offset : Z)
  : parsed (list FieldDescription) :=
  match n with
  | O => Parsed []
  | S n' =>
      let nameEnd := indexOf0 data offset in
      let nm := toLowerCase (js_toString data offset nameEnd) in
      let offset := nameEnd + 1 in
      match readInt32BE data offset, readInt16BE data (offset + 4),
            readInt32BE data (offset + 6), readUInt8 data (offset + 10) with
      | Some oid, Some size, Some tmod, Some fmt =>
          match parse_fields data n' (i + 1) (offset + 11) with
          | Parsed rest =>
              match nm with
              | Some nm => Parsed (mkField nm 0 i oid size tmod fmt :: rest)
              | None => ParseUnmodelled
              end
          | ParseRangeError => ParseRangeError
          | ParseUnmodelled => ParseUnmodelled
          end
      | _, _, _, _ => ParseRangeError
      end
  end.

Definition parseRowDescription (data : list Z) : parsed (list FieldDescription) :=
  match readInt16BE data 0 with
  | Some fieldCount => parse_fields data (Z.to_nat fieldCount) 0 2
  | None => ParseRangeError
  end.

(** A column value of a row: [CVal oid bytes] stands for what the
    converter registered for type [oid] makes of [bytes]; [column_value]
    below computes it with the converters of [src/types.ts]. *)
Inductive cell :=
| CNull
| CVal (oid : Z) (bytes : list Z).

(** ** Value conversion ([src/types.ts]) *)

(** [TypeConverterContext.rawTypes] *)
Record RawTypes := mkRawTypes {
  raw_bigint : bool; raw_date : bool; raw_timestamp : bool; raw_numeric : bool
}.

(** The JavaScript value a decoder returns, named by the expression that
    computes it from the column text [s]. *)
Inductive js_decoded :=
| DString (s : string)          (* [s] itself *)
| DParseInt (s : string)        (* [parseInt(s, 10)] *)
| DParseFloat (s : string)      (* [parseFloat(s)] *)
| DBool (b : bool)
| DDate (s : string)            (* [new Date(s)] *)
| DBuffer (b : list Z).         (* the [Buffer] itself *)

(** [bufferToString] *)
Definition bufferToString (buffer : list Z) : string := string_of_bytes buffer.

(** [stringToBuffer] *)
Definition stringToBuffer (str : string) : list Z := bytes_of_string str.

(** [bufferToBoolean] *)
Definition bufferToBoolean (buffer : list Z) : bool :=
  let str := bufferToString buffer in
  String.eqb str "t" || String.eqb str "true" || String.eqb str "1".

(** [getTypeConverter(oid).decode(buffer, context)]: the entry of
    [typeConverters] for [oid], and [bufferToString] for any other
    [oid]. *)
Definition decode (oid : Z) (context : option RawTypes) (buffer : list Z) : js_decoded :=
  let str := bufferToString buffer in
  let raw (f : RawTypes -> bool) := match context with Some r => f r | None => false end in
  if oid =? 20 then (if raw raw_bigint then DString str else DParseInt str)
  else if (oid =? 21) || (oid =? 23) then DParseInt str
  else if (oid =? 700) || (oid =? 701) then DParseFloat str
  else if oid =? 1700 then (if raw raw_numeric then DString str else DParseFloat str)
  else if (oid =? 25) || (oid =? 1043) || (oid =? 1042) then DString str
  else if oid =? 16 then DBool (bufferToBoolean buffer)
  else if oid =? 1082 then (if raw raw_date then DString str else DDate str)
  else if oid =? 1083 then DString str
  else if oid =? 1114 then (if raw raw_timestamp then DString str else DDate str)
  else if oid =? 17 then DBuffer buffer
  else DString str.

(** The [encode] of the boolean converter (oid 16) and of the text
    converters (25, 1043, 1042 and the fallback). *)
Definition encode_bool (value : bool) : list Z :=
  stringToBuffer (if value then "t" else "f").
Definition encode_text (value : string) : list Z := stringToBuffer value.

(** What [parseDataRow] stores for a column: [null], or
    [converter.decode(valueBuffer)], called without a context (none of
    the decoders throws, so its [catch] is never taken). *)
Definition column_value (c : cell) : option js_decoded :=
  match c with
  | CNull => None
  | CVal oid bytes => Some (decode oid None bytes)
  end.

(** The prototype of a row object: [Object.prototype] (that of [{}]),
    [null], or the object value of a column (a [Date] or a [Buffer]). *)
Inductive js_proto :=
| ProtoObject
| ProtoNull
| ProtoOf (v : cell).

(** A row object: its own properties with their values, in the order
    they were created (enumeration would list integer-like keys first;
    no statement here depends on that order), and its prototype. *)
Record js_object := mkObject {
  own : list (string * cell);
  proto : js_proto
}.

(** A row: a positional array, or a plain object. *)
Inductive row :=
| ArrayRow (values : list cell)
| ObjectRow (obj : js_object).

(** Writing an own data property: an existing key keeps its place and
    takes the new value, a new key is added last. *)
Fixpoint own_set (o : list (string * cell)) (k : string) (v : cell)
  : list (string * cell) :=
  match o with
  | [] => [(k, v)]
  | (k', v') :: o' =>
      if String.eqb k k' then (k, v) :: o' else (k', v') :: own_set o' k v
  end.

Definition has_own (o : list (string * cell)) (k : string) : bool :=
  existsb (fun kv => String.eqb (fst kv) k) o.

Definition is_buffer_value (v : cell) : bool :=
  match column_value v with Some (DBuffer _) => true | _ => false end.

(** [row[k] = v] ([[[Set]]] of an ordinary object): an own key is
    updated; with a [null] prototype a new own key is added; otherwise
    the key [__proto__] reaches the setter of [Object.prototype], which
    makes [v] the prototype when it is [null] or an object ([Date],
    [Buffer]) and ignores a primitive; any other key becomes a new own
    property, except that below a [Buffer] prototype (typed-array
    elements and getter-only accessors such as [length]) the result is
    not modelled ([None]). *)
Definition obj_set (o : js_object) (k : string) (v : cell) : option js_object :=
  if has_own (own o) k then Some (mkObject (own_set (own o) k v) (proto o))
  else
    match proto o with
    | ProtoNull => Some (mkObject (own_set (own o) k v) ProtoNull)
    | ProtoOf p =>
        if is_buffer_value p then None
        else if String.eqb k "__proto__" then
          Some match column_value v with
               | None => mkObject (own o) ProtoNull
               | Some (DDate _) | Some (DBuffer _) => mkObject (own o) (ProtoOf v)
               | Some _ => o
               end
        else Some (mkObject (own_set (own o) k v) (proto o))
    | ProtoObject =>
        if String.eqb k "__proto__" then
          Some match column_value v with
               | None => mkObject (own o) ProtoNull
               | Some (DDate _) | Some (DBuffer _) => mkObject (own o) (ProtoOf v)
               | Some _ => o
               end
        else Some (mkObject (own_set (own o) k v) ProtoObject)
    end.

(** The bitmap: for each of the [bitmapLen] leading bytes, its bits from
    7 down to 0. *)
Definition byte_bits (b : Z) : list Z :=
  map (fun bit => Z.land (Z.shiftr b bit) 1) [7; 6; 5; 4; 3; 2; 1; 0].
Definition read_bitmap (data : list Z) (bitmapLen : nat) : list Z :=
  flat_map (fun i => byte_bits (byte_at data (Z.of_nat i))) (seq 0 bitmapLen).

(** [Math.ceil(columnCount / 8)] *)
Definition bitmap_length (columnCount : nat) : nat :=
  Nat.div (columnCount + 7) 8.

(** One column of the loop of [parseDataRow], at data index [dataIdx]:
    its value and the next data index. *)
Definition parse_column (data : list Z) (f : FieldDescription) (bit : Z)
  (dataIdx : Z) : option (cell * Z) :=
  if bit =? 0 then Some (CNull, dataIdx)
  else
    match readInt32BE data dataIdx with
    | None => None
    | Some valueLength =>
        let dataIdx := dataIdx + 4 in
        let valueBuffer := js_slice data dataIdx (dataIdx + valueLength - 4) in
        Some (CVal f.(typeOid) valueBuffer, dataIdx + (valueLength - 4))
    end.

(** The column loop in array mode: the values in column order and the
    final index. *)
Fixpoint parse_columns (data : list Z) (fields : list FieldDescription)
  (bits : list Z) (dataIdx : Z) : option (list cell * Z) :=
  match fields with
  | [] => Some ([], dataIdx)
  | f :: fs =>
      match parse_column data f (nth 0 bits 0) dataIdx with
      | None => None
      | Some (v, idx') =>
          match parse_columns data fs (tl bits) idx' with
          | None => None
          | Some (vs, idx'') => Some (v :: vs, idx'')
          end
      end
  end.

(** The column loop in object mode: each column is read, then
    [row[field.name] = value] is done, before the next column. *)
Fixpoint object_columns (data : list Z) (fields : list FieldDescription)
  (bits : list Z) (dataIdx : Z) (o : js_object) : parsed js_object :=
  match fields with
  | [] => Parsed o
  | f :: fs =>
      match parse_column data f (nth 0 bits 0) dataIdx with
      | None => ParseRangeError
      | Some (v, idx') =>
          match obj_set o f.(name) v with
          | None => ParseUnmodelled
          | Some o' => object_columns data fs (tl bits) idx' o'
          end
      end
  end.




(** [parseDataRow(data, fields)]: [[]] or [{}], then the column loop. *)
Definition parseDataRow (isArrayMode : bool) (data : list Z)
  (fields : list FieldDescription) : parsed row :=
  let columnCount := List.length fields in
  let bitmapLen := bitmap_length columnCount in
  let bitmap := read_bitmap data bitmapLen in
  if isArrayMode then
    match parse_columns data fields bitmap (Z.of_nat bitmapLen) with
    | None => ParseRangeError
    | Some (vals, _) => Parsed (ArrayRow vals)
    end
  else
    match object_columns data fields bitmap (Z.of_nat bitmapLen) (mkObject [] ProtoObject) with
    | Parsed o => Parsed (ObjectRow o)
    | ParseRangeError => ParseRangeError
    | ParseUnmodelled => ParseUnmodelled
    end.

(** ** Query execution ([execute], [executeSimple], [readQueryResponse]) *)

Record QueryResult := mkResult {
  rows : list row;
  rowCount : SpecFloat.spec_float;   (* a Number *)
  command : option string;
  fields : option (list FieldDescription)
}.

(** The trailing digit run of a string ([/(\d+)$/]), if any. *)
Definition is_digit (c : ascii) : bool :=
  let n := nat_of_ascii c in ((48 <=? n)%nat && (n <=? 57)%nat)%bool.
Fixpoint take_digits (l : list ascii) : list ascii :=
  match l with
  | c :: l' => if is_digit c then c :: take_digits l' else []
  | [] => []
  end.
(** The integer the trailing digits denote; [parseInt] of them is the
    Number [js_number_of_Z] of it. *)
Definition trailing_number (s : string) : option Z :=
  let ds := rev (take_digits (rev (list_ascii_of_string s))) in
  match ds with
  | [] => None
  | _ => Some (fold_left (fun acc c => acc * 10 + (Z.of_nat (nat_of_ascii c) - 48)) ds 0)
  end.

(** The command-complete branch: [command] and [rowCount]. *)
Definition on_command_complete (res : QueryResult) (data : list Z) : QueryResult :=
  let commandStr := js_toString data 0 (Z.of_nat (List.length data) - 1) in
  let cnt := match trailing_number commandStr with
             | Some n => js_number_of_Z n
             | None => js_number_of_Z (Z.of_nat (List.length res.(rows)))
             end in
  mkResult res.(rows) cnt (Some commandStr) res.(fields).

(** [readQueryResponse]: messages are type, 4 unused bytes, a 4-byte
    payload length and the payload. *)
Fixpoint readQueryResponse (fuel : nat) (res : QueryResult)
  (flds : option (list FieldDescription)) : M QueryResult :=
  match fuel with
  | O => nofuel
  | S f =>
      messageType <- readBytes 1 ;;
      _unused <- readBytes 4 ;;
      length <- readInt32 ;;
      data <- readBytes length ;;
      s <- get ;;
      let t := byte_at messageType 0 in
      if t =? MESSAGE_TYPE_ROW_DESCRIPTION then
        match parseRowDescription data with
        | ParseRangeError => throw RangeError
        | ParseUnmodelled => unmodelled
        | Parsed fs =>
            readQueryResponse f (mkResult res.(rows) res.(rowCount) res.(command) (Some fs))
                              (Some fs)
        end
      else if t =? MESSAGE_TYPE_DATA_ROW then
        match flds with
        | None => readQueryResponse f res flds
        | Some fs =>
            match parseDataRow s.(options).(rowMode_array) data fs with
            | ParseRangeError => throw RangeError
            | ParseUnmodelled => unmodelled
            | Parsed r =>
                readQueryResponse f (mkResult (res.(rows) ++ [r]) res.(rowCount)
                                              res.(command) res.(fields)) flds
            end
        end
      else if t =? MESSAGE_TYPE_COMMAND_COMPLETE then
        readQueryResponse f (on_command_complete res data) flds
      else if t =? MESSAGE_TYPE_READY_FOR_QUERY then
        modify (fun s => set_txstatus s (nth_error data 0)) ;;; ret res
      else if t =? MESSAGE_TYPE_ERROR_RESPONSE then
        throw (DatabaseError (parseErrorResponse data))
      else
        (* empty query, notice and anything else: ignored *)
        readQueryResponse f res flds
  end.

(** [executeSimple(sql)]: one ['Q'] message, then the response. *)
Definition query_message (sql : string) : list Z :=
  let sqlBuffer := bytes_of_string sql ++ [0] in
  [MESSAGE_TYPE_QUERY] ++ be32 (4 + Z.of_nat (List.length sqlBuffer)) ++ sqlBuffer.

Definition executeSimple (fuel : nat) (sql : string) : M QueryResult :=
  sendRawMessage (query_message sql) ;;;
  readQueryResponse fuel (mkResult [] (js_number_of_Z 0) None None) None.

(** A JavaScript parameter value as [execute] distinguishes it. *)
Inductive js_value :=
| JNull
| JUndefined
| JString (s : string)
| JNumber (str : string)           (* a number, by its [String(param)] *)
| JBoolean (b : bool)
| JDate (iso : string)             (* [toISOString()] *)
| JOther (str : string).           (* [String(param)] *)

(** [s.replace(/'/g, "''")] *)
Fixpoint double_quotes (l : list ascii) : list ascii :=
  match l with
  | [] => []
  | c :: l' => if Ascii.eqb c "'"%char then c :: c :: double_quotes l'
               else c :: double_quotes l'
  end.
Definition quote (s : string) : string :=
  "'" ++ string_of_list_ascii (double_quotes (list_ascii_of_string s)) ++ "'".

(** The replacement callback of [execute] for one parameter
    ([params[i]] out of range is [undefined]). *)
Definition sql_literal (p : option js_value) : string :=
  match p with
  | None | Some JNull | Some JUndefined => "NULL"
  | Some (JString s) => quote s
  | Some (JNumber str) => str
  | Some (JBoolean b) => if b then "TRUE" else "FALSE"
  | Some (JDate iso) => "'" ++ iso ++ "'"
  | Some (JOther str) => quote str
  end.

(** [sql.replace(/\?/g, () => literal(params[paramIndex++]))] *)
Fixpoint substitute (l : list ascii) (params : list js_value) (i : nat) : string :=
  match l with
  | [] => EmptyString
  | c :: l' =>
      if Ascii.eqb c "?"%char
      then sql_literal (nth_error params i) ++ substitute l' params (S i)
      else String c (substitute l' params i)
  end.

(** [execute(sql, params)].  It always takes the simple query protocol;
    [executeExtended] is never called. *)
Definition execute (fuel : nat) (sql : string) (params : list js_value)
  : M QueryResult :=
  s <- get ;;
  if s.(closed) || negb s.(has_socket) then
    throw (ConnectionClosedError "Connection is closed")
  else
    let sql' := match params with
                | [] => sql
                | _ => substitute (list_ascii_of_string sql) params 0
                end in
    executeSimple fuel sql'.

(** [sendParse], [sendBind], [sendDescribe], [sendExecute], [sendSync]
    and [readExtendedQueryResponse]: the extended query protocol, which
    [executeExtended] drives.  ([execute] never calls [executeExtended].)
    The lengths written by [writeInt32BE] stay far below [2^31]: a
    JavaScript string is shorter than [2^30]. *)
Definition MESSAGE_TYPE_DESCRIBE : Z := 68.          (* 'D' *)
Definition MESSAGE_TYPE_EXECUTE : Z := 69.           (* 'E' *)
Definition MESSAGE_TYPE_SYNC : Z := 83.              (* 'S' *)
Definition MESSAGE_TYPE_TERMINATE : Z := 88.         (* 'X' *)
Definition MESSAGE_TYPE_PARSE_COMPLETE : Z := 49.    (* '1' *)
Definition MESSAGE_TYPE_BIND_COMPLETE : Z := 50.     (* '2' *)
Definition MESSAGE_TYPE_NO_DATA : Z := 110.          (* 'n' *)

(** The payload [sendParse(statementName, sql)] writes. *)
Definition parse_message (statementName sql : string) : list Z :=
  let stmtBuffer := bytes_of_string statementName ++ [0] in
  let sqlBuffer := bytes_of_string sql ++ [0] in
  let paramTypes := be16 0 in
  [MESSAGE_TYPE_PARSE]
  ++ be32 (4 + Z.of_nat (List.length stmtBuffer) + Z.of_nat (List.length sqlBuffer)
           + Z.of_nat (List.length paramTypes))
  ++ stmtBuffer ++ sqlBuffer ++ paramTypes.


(** One parameter of [sendBind]: [None] is [null] or [undefined] (length
    [-1], no bytes), [Some v] is a value whose [String(param)] is [v]. *)
Definition bind_param (p : option string) : list Z :=
  match p with
  | None => be32 (-1)
  | Some valueStr =>
      let valueBuf := bytes_of_string valueStr in
      be32 (Z.of_nat (List.length valueBuf)) ++ valueBuf
  end.

(** The payload [sendBind(portalName, statementName, params)] writes. *)
Definition bind_message (portalName statementName : string)
  (params : list (option string)) : list Z :=
  let portalBuffer := bytes_of_string portalName ++ [0] in
  let stmtBuffer := bytes_of_string statementName ++ [0] in
  let formatCodes := be16 0 in
  let paramCount := be16 (Z.of_nat (List.length params)) in
  let paramBuffers := map bind_param params in
  let resultFormats := be16 0 in
  let totalLength :=
    1 + 4 + Z.of_nat (List.length portalBuffer) + Z.of_nat (List.length stmtBuffer)
    + Z.of_nat (List.length formatCodes) + Z.of_nat (List.length paramCount)
    + fold_left (fun sum buf => sum + Z.of_nat (List.length buf)) paramBuffers 0
    + Z.of_nat (List.length resultFormats) in
  [MESSAGE_TYPE_BIND] ++ be32 (totalLength - 1) ++ portalBuffer ++ stmtBuffer
  ++ formatCodes ++ paramCount ++ List.concat paramBuffers ++ resultFormats.


(** The payload [sendDescribe(type, name)] writes. *)
Definition describe_message (type : ascii) (name : string) : list Z :=
  let nameBuffer := bytes_of_string name ++ [0] in
  [MESSAGE_TYPE_DESCRIBE] ++ be32 (4 + 1 + Z.of_nat (List.length nameBuffer))
  ++ [byte_of_ascii type] ++ nameBuffer.


(** The payload [sendExecute(portalName, maxRows)] writes. *)
Definition execute_message (portalName : string) (maxRows : Z) : list Z :=
  let nameBuffer := bytes_of_string portalName ++ [0] in
  [MESSAGE_TYPE_EXECUTE] ++ be32 (4 + Z.of_nat (List.length nameBuffer) + 4)
  ++ nameBuffer ++ be32 maxRows.


(** The payload [sendSync()] writes. *)
Definition sync_message : list Z := [MESSAGE_TYPE_SYNC] ++ be32 4.


(** [readExtendedQueryResponse] *)
Fixpoint readExtendedQueryResponse (fuel : nat) (res : QueryResult)
  (flds : option (list FieldDescription)) : M QueryResult :=
  match fuel with
  | O => nofuel
  | S f =>
      messageType <- readBytes 1 ;;
      _unused <- readBytes 4 ;;
      length <- readInt32 ;;
      data <- readBytes length ;;
      s <- get ;;
      let t := byte_at messageType 0 in
      if t =? MESSAGE_TYPE_PARSE_COMPLETE then readExtendedQueryResponse f res flds
      else if t =? MESSAGE_TYPE_BIND_COMPLETE then readExtendedQueryResponse f res flds
      else if t =? MESSAGE_TYPE_ROW_DESCRIPTION then
        match parseRowDescription data with
        | ParseRangeError => throw RangeError
        | ParseUnmodelled => unmodelled
        | Parsed fs =>
            readExtendedQueryResponse f
              (mkResult res.(rows) res.(rowCount) res.(command) (Some fs)) (Some fs)
        end
      else if t =? MESSAGE_TYPE_NO_DATA then readExtendedQueryResponse f res flds
      else if t =? MESSAGE_TYPE_DATA_ROW then
        match flds with
        | None => readExtendedQueryResponse f res flds
        | Some fs =>
            match parseDataRow s.(options).(rowMode_array) data fs with
            | ParseRangeError => throw RangeError
            | ParseUnmodelled => unmodelled
            | Parsed r =>
                readExtendedQueryResponse f (mkResult (res.(rows) ++ [r]) res.(rowCount)
                                                      res.(command) res.(fields)) flds
            end
        end
      else if t =? MESSAGE_TYPE_COMMAND_COMPLETE then
        readExtendedQueryResponse f (on_command_complete res data) flds
      else if t =? MESSAGE_TYPE_READY_FOR_QUERY then
        modify (fun s => set_txstatus s (nth_error data 0)) ;;; ret res
      else if t =? MESSAGE_TYPE_ERROR_RESPONSE then
        throw (DatabaseError (parseErrorResponse data))
      else readExtendedQueryResponse f res flds
  end.


(** ** Closing ([close]) *)

(** The Terminate message [close] writes. *)
Definition terminate_message : list Z := [MESSAGE_TYPE_TERMINATE] ++ be32 4.

(** [try { ... } catch (err) { }] *)
Definition try_ignore (m : M unit) : M unit :=
  fun s => match m s with Throw _ s' => Done tt s' | o => o end.

(** [socket.destroy(); this.socket = undefined; this.closed = true] *)
Definition drop_socket (s : Session) : Session :=
  mkSession s.(options) false false s.(buffer) s.(events) s.(sent) true
            s.(transactionStatus) s.(backendKeyData) s.(hsVersion)
            s.(protocol1) s.(protocol2).

(** [close()] *)
Definition close : M unit :=
  s <- get ;;
  if s.(closed) || negb s.(has_socket) then ret tt
  else try_ignore (sendRawMessage terminate_message) ;;;
       modify drop_socket.

(** ** The connection pool ([src/pool.ts])

    Connections are identified by numbers (object identity), acquire
    requests by the number of the caller.  Every [await] of the pool
    code is an operation in flight ([task]); it settles at a later
    [Finish] step, so that the steps of several callers interleave as
    the event loop lets them. *)
Module Pool.

Record PoolOptions := mkPoolOptions {
  min : Z;
  max : Z;
  acquireTimeout : Z;
  idleTimeout : Z;
  connectionTimeout : Z;
  validateOnBorrow : bool;
  validateOnReturn : bool
}.

Record ConnectionMetadata := mkMeta {
  createdAt : Z;
  lastUsedAt : Z;
  useCount : Z
}.

(** Who awaits a [createConnection()]. *)
Inductive owner :=
| ForAcquire (r : nat)            (* [acquire()] of caller [r] *)
| ForBackfill                     (* [backfillConnections] *)
| ForInit.                        (* [initialize] *)

Inductive task :=
| TCreate (o : owner)                   (* [await conn.connect()] *)
| TValidateBorrow (r : nat) (c : nat)   (* [acquire]: [await validateConnection] *)
| TValidateReturn (c : nat)             (* [release]: [await validateConnection] *)
| TEnd.                                 (* [end]: [await Promise.allSettled] *)

Record PoolState := mkPool {
  opts : PoolOptions;
  now : Z;                                   (* [Date.now()] *)
  connections : list (nat * ConnectionMetadata);  (* the [Map], in insertion order *)
  availableConnections : list nat;
  pendingAcquires : list nat;
  timers : list nat;                         (* acquire timeouts not cleared *)
  tasks : list task;
  evictionTimer : bool;
  closing : bool;
  closed : bool;
  next_conn : nat                            (* the next [new Connection] *)
}.

(** What callers and connections observe. *)
Inductive pool_event :=
| Resolved (r : nat) (c : nat)        (* caller [r]'s acquire resolves with [c] *)
| Rejected (r : nat) (e : nz_error)   (* caller [r]'s acquire rejects *)
| ReleaseRejected (c : nat) (e : nz_error)
| Validated (c : nat)                 (* the validation query runs on [c] *)
| Closed (c : nat).                   (* [c.close()] is called *)

Definition with_conns (s : PoolState) (cs : list (nat * ConnectionMetadata))
  (av : list nat) : PoolState :=
  mkPool s.(opts) s.(now) cs av s.(pendingAcquires) s.(timers) s.(tasks)
         s.(evictionTimer) s.(closing) s.(closed) s.(next_conn).

Definition with_pending (s : PoolState) (p t : list nat) : PoolState :=
  mkPool s.(opts) s.(now) s.(connections) s.(availableConnections) p t s.(tasks)
         s.(evictionTimer) s.(closing) s.(closed) s.(next_conn).

Definition with_tasks (s : PoolState) (ts : list task) : PoolState :=
  mkPool s.(opts) s.(now) s.(connections) s.(availableConnections)
         s.(pendingAcquires) s.(timers) ts s.(evictionTimer) s.(closing)
         s.(closed) s.(next_conn).

Definition size (s : PoolState) : Z := Z.of_nat (List.length s.(connections)).

Definition has_conn (s : PoolState) (c : nat) : bool :=
  existsb (fun e => Nat.eqb (fst e) c) s.(connections).

(** [metadata.lastUsedAt = Date.now(); metadata.useCount++] if the
    metadata exists. *)
Definition touch_use (s : PoolState) (c : nat) : PoolState :=
  with_conns s (map (fun e => if Nat.eqb (fst e) c
                              then (c, mkMeta (snd e).(createdAt) s.(now) ((snd e).(useCount) + 1))
                              else e) s.(connections)) s.(availableConnections).

(** [metadata.lastUsedAt = Date.now()] if the metadata exists. *)
Definition touch (s : PoolState) (c : nat) : PoolState :=
  with_conns s (map (fun e => if Nat.eqb (fst e) c
                              then (c, mkMeta (snd e).(createdAt) s.(now) (snd e).(useCount))
                              else e) s.(connections)) s.(availableConnections).

(** [array.splice(array.indexOf(x), 1)] when present. *)
Fixpoint remove_first (x : nat) (l : list nat) : list nat :=
  match l with
  | [] => []
  | y :: l' => if Nat.eqb x y then l' else y :: remove_first x l'
  end.

(** [removeConnection(c)]: out of the map and of the available list,
    then closed. *)
Definition removeConnection (s : PoolState) (c : nat) : PoolState * list pool_event :=
  (with_conns s (filter (fun e => negb (Nat.eqb (fst e) c)) s.(connections))
              (remove_first c s.(availableConnections)), [Closed c]).

(** Queueing a pending acquire with its deadline timer. *)
Definition enqueue (s : PoolState) (r : nat) : PoolState :=
  with_pending s (s.(pendingAcquires) ++ [r]) (s.(timers) ++ [r]).

(** The body of [acquire()] from its [while] loop on. *)
Definition acquire_loop (s : PoolState) (r : nat) : PoolState * list pool_event :=
  match s.(availableConnections) with
  | c :: rest =>
      let s := with_conns s s.(connections) rest in
      if s.(opts).(validateOnBorrow)
      then (with_tasks s (s.(tasks) ++ [TValidateBorrow r c]), [Validated c])
      else (touch_use s c, [Resolved r c])
  | [] =>
      if size s <? s.(opts).(max)
      then (with_tasks s (s.(tasks) ++ [TCreate (ForAcquire r)]), [])
      else (enqueue s r, [])
  end.

(** [acquire()] called by caller [r]. *)
Definition acquire (s : PoolState) (r : nat) : PoolState * list pool_event :=
  if s.(closed) then (s, [Rejected r (InterfaceError "Pool is closed")])
  else if s.(closing) then (s, [Rejected r (InterfaceError "Pool is closing")])
  else acquire_loop s r.

(** The part of [release(c)] after validation: hand [c] to the oldest
    pending acquire, or put it back into the available list. *)
Definition release_handoff (s : PoolState) (c : nat) : PoolState * list pool_event :=
  let s := touch s c in
  match s.(pendingAcquires) with
  | r :: rs => (with_pending s rs (remove Nat.eq_dec r s.(timers)), [Resolved r c])
  | [] => (with_conns s s.(connections) (s.(availableConnections) ++ [c]), [])
  end.

(** [release(c)] *)
Definition release (s : PoolState) (c : nat) : PoolState * list pool_event :=
  if negb (has_conn s c) then
    (s, [ReleaseRejected c (InterfaceError "Connection does not belong to this pool")])
  else if s.(opts).(validateOnReturn) then
    (with_tasks s (s.(tasks) ++ [TValidateReturn c]), [Validated c])
  else release_handoff s c.


(** The timeout callback of caller [r]'s pending acquire. *)
Definition acquire_timeout (s : PoolState) (r : nat) : PoolState * list pool_event :=
  (with_pending s (remove_first r s.(pendingAcquires)) (remove Nat.eq_dec r s.(timers)),
   [Rejected r (OperationalError ("Acquire timeout after "
                                  ++ js_string_of_Z s.(opts).(acquireTimeout) ++ "ms"))]).

(** Removing each connection of a list in turn. *)
Fixpoint remove_all (s : PoolState) (cs : list nat) : PoolState * list pool_event :=
  match cs with
  | [] => (s, [])
  | c :: cs' =>
      let (s1, e1) := removeConnection s c in
      let (s2, e2) := remove_all s1 cs' in
      (s2, e1 ++ e2)
  end.

Definition is_available (s : PoolState) (c : nat) : bool :=
  existsb (Nat.eqb c) s.(availableConnections).

(** [evictIdleConnections]: over the map in insertion order, available
    connections idle too long, as long as [size - toRemove.length > min]. *)
Definition evictIdleConnections (s : PoolState) : PoolState * list pool_event :=
  let toRemove :=
    fold_left (fun acc e =>
      if is_available s (fst e)
         && (s.(opts).(idleTimeout) <? s.(now) - (snd e).(lastUsedAt))
         && (s.(opts).(min) <? size s - Z.of_nat (List.length acc))
      then acc ++ [fst e] else acc) s.(connections) [] in
  remove_all s toRemove.

(** [evictExpiredConnections]: available connections older than
    [connectionTimeout]. *)
Definition evictExpiredConnections (s : PoolState) : PoolState * list pool_event :=
  let toRemove :=
    fold_left (fun acc e =>
      if is_available s (fst e)
         && (s.(opts).(connectionTimeout) <? s.(now) - (snd e).(createdAt))
      then acc ++ [fst e] else acc) s.(connections) [] in
  remove_all s toRemove.

(** [backfillConnections]: [min - size] creations are started. *)
Definition backfillConnections (s : PoolState) : PoolState :=
  if s.(opts).(min) =? 0 then s
  else
    let deficit := s.(opts).(min) - size s in
    if 0 <? deficit
    then with_tasks s (s.(tasks) ++ repeat (TCreate ForBackfill) (Z.to_nat deficit))
    else s.

(** One run of the eviction interval. *)
Definition eviction_tick (s : PoolState) : PoolState * list pool_event :=
  let (s1, e1) := evictIdleConnections s in
  let (s2, e2) := evictExpiredConnections s1 in
  (backfillConnections s2, e1 ++ e2).

(** [end()] up to its [await]: closing, timer stopped, pending acquires
    rejected and their timers cleared, every connection closed. *)
Definition end_start (s : PoolState) : PoolState * list pool_event :=
  if s.(closed) then (s, [])
  else
    let evs := map (fun r => Rejected r (InterfaceError "Pool is closing")) s.(pendingAcquires)
               ++ map (fun e => Closed (fst e)) s.(connections) in
    (mkPool s.(opts) s.(now) s.(connections) s.(availableConnections) []
            (filter (fun t => negb (existsb (Nat.eqb t) s.(pendingAcquires))) s.(timers))
            (s.(tasks) ++ [TEnd]) false true s.(closed) s.(next_conn), evs).

Definition set_flags (s : PoolState) (timer closing' closed' : bool) : PoolState :=
  mkPool s.(opts) s.(now) s.(connections) s.(availableConnections)
         s.(pendingAcquires) s.(timers) s.(tasks) timer closing' closed' s.(next_conn).

(** [startEvictionTimer] once no initial creation is left. *)
Definition is_init_task (t : task) : bool :=
  match t with TCreate ForInit => true | _ => false end.
Definition after_init (s : PoolState) : PoolState :=
  if existsb is_init_task s.(tasks) then s
  else set_flags s true s.(closing) s.(closed).

(** [createConnection()] resolved: the new connection enters the map. *)
Definition add_connection (s : PoolState) : PoolState * nat :=
  let c := s.(next_conn) in
  (mkPool s.(opts) s.(now) (s.(connections) ++ [(c, mkMeta s.(now) s.(now) 0)])
          s.(availableConnections) s.(pendingAcquires) s.(timers) s.(tasks)
          s.(evictionTimer) s.(closing) s.(closed) (S c), c).

(** The continuation of an awaited operation, once it has settled
    ([ok]: resolved, or the validation query succeeded). *)
Definition settle (s : PoolState) (t : task) (ok : bool) : PoolState * list pool_event :=
  match t, ok with
  | TCreate o, true =>
      let (s, c) := add_connection s in
      match o with
      | ForAcquire r => (touch_use s c, [Resolved r c])
      | ForBackfill =>
          if negb s.(closed) && negb s.(closing)
          then (with_conns s s.(connections) (s.(availableConnections) ++ [c]), [])
          else (s, [Closed c])
      | ForInit => (after_init (with_conns s s.(connections) (s.(availableConnections) ++ [c])), [])
      end
  | TCreate (ForAcquire r), false =>
      if (List.length s.(availableConnections) =? 0)%nat && (size s =? 0)
      then (s, [Rejected r (OperationalError "Connection error")])
      else (enqueue s r, [])
  | TCreate ForBackfill, false => (s, [])
  | TCreate ForInit, false => (after_init s, [])
  | TValidateBorrow r c, true => (touch_use s c, [Resolved r c])
  | TValidateBorrow r c, false =>
      let (s1, e1) := removeConnection s c in
      let (s2, e2) := acquire_loop s1 r in
      (s2, e1 ++ e2)
  | TValidateReturn c, true => release_handoff s c
  | TValidateReturn c, false => removeConnection s c
  | TEnd, _ =>
      (set_flags (with_conns s [] []) s.(evictionTimer) false true, [])
  end.

(** Removing the [k]-th operation in flight. *)
Fixpoint take_task (k : nat) (ts : list task) : option (task * list task) :=
  match k, ts with
  | _, [] => None
  | O, t :: ts' => Some (t, ts')
  | S k', t :: ts' =>
      match take_task k' ts' with
      | Some (t', rest) => Some (t', t :: rest)
      | None => None
      end
  end.

(** What may happen next. *)
Inductive label :=
| Acquire (r : nat)          (* caller [r] calls [acquire()] *)
| Release (c : nat)          (* [release(c)] is called *)
| Finish (k : nat) (ok : bool)  (* the [k]-th operation in flight settles *)
| Timeout (r : nat)          (* caller [r]'s deadline timer fires *)
| Tick                       (* the eviction interval fires *)
| Advance (dt : Z)           (* [dt] milliseconds pass *)
| CallEnd.                   (* [end()] is called *)

Definition step (s : PoolState) (l : label) : option (PoolState * list pool_event) :=
  match l with
  | Acquire r => Some (acquire s r)
  | Release c => Some (release s c)
  | Finish k ok =>
      match take_task k s.(tasks) with
      | Some (t, rest) => Some (settle (with_tasks s rest) t ok)
      | None => None
      end
  | Timeout r =>
      if existsb (Nat.eqb r) s.(timers) then Some (acquire_timeout s r) else None
  | Tick => if s.(evictionTimer) then Some (eviction_tick s) else None
  | Advance dt =>
      if 0 <=? dt then
        Some (mkPool s.(opts) (s.(now) + dt) s.(connections) s.(availableConnections)
                     s.(pendingAcquires) s.(timers) s.(tasks) s.(evictionTimer)
                     s.(closing) s.(closed) s.(next_conn), [])
      else None
  | CallEnd => Some (end_start s)
  end.

Fixpoint run (s : PoolState) (ls : list label) : option PoolState :=
  match ls with
  | [] => Some s
  | l :: ls' =>
      match step s l with
      | Some (s', _) => run s' ls'
      | None => None
      end
  end.

(** [new Pool(options)]: the option checks, then [initialize()] starts
    [min] creations; with [min = 0] the eviction timer starts at once. *)
Definition new_pool (o : PoolOptions) : option PoolState :=
  if (o.(min) <? 0) || (o.(max) <? 1) || (o.(max) <? o.(min)) then None
  else Some (mkPool o 0 [] [] [] [] (repeat (TCreate ForInit) (Z.to_nat o.(min)))
                    (o.(min) =? 0) false false 0).

(** Operations in flight that create a connection. *)
Fixpoint creations (ts : list task) : nat :=
  match ts with
  | [] => O
  | TCreate _ :: ts' => S (creations ts')
  | _ :: ts' => creations ts'
  end.

(** The states reached by steps none of which starts a connection
    creation while another one is in flight. *)
Inductive reach_serial (o : PoolOptions) : PoolState -> Prop :=
| rs_init s0 : new_pool o = Some s0 -> reach_serial o s0
| rs_step s l s' evs :
    reach_serial o s -> step s l = Some (s', evs) ->
    ((creations s.(tasks) < creations s'.(tasks))%nat -> creations s.(tasks) = O) ->
    reach_serial o s'.

Definition reachable (o : PoolOptions) (s : PoolState) : Prop :=
  exists s0 ls, new_pool o = Some s0 /\ run s0 ls = Some s.

Record PoolStats := mkStats {
  total : Z; available : Z; inUse : Z; pending : Z; st_min : Z; st_max : Z
}.

(** [getStats()] *)
Definition getStats (s : PoolState) : PoolStats :=
  mkStats (size s) (Z.of_nat (List.length s.(availableConnections)))
          (size s - Z.of_nat (List.length s.(availableConnections)))
          (Z.of_nat (List.length s.(pendingAcquires))) s.(opts).(min) s.(opts).(max).

(** An example configuration: [min = 0], [max = 1], no validation. *)
Definition po_example : PoolOptions := mkPoolOptions 0 1 30000 30000 1800000 false false.

(** The C4 counter-example: two overlapping [acquire()] calls on a pool
    with [max = 1] both see an empty map, both create a connection, and
    the map ends with two entries. *)
Definition two_acquires : list label := [Acquire 0; Acquire 1; Finish 0 true; Finish 0 true].

(** The invariant of C4's amended form: the options passed the
    constructor's checks, and the map plus the creations in flight stay
    within [max]. *)
Definition Inv (s : PoolState) : Prop :=
  0 <= min (opts s) <= max (opts s) /\
  size s + Z.of_nat (creations (tasks s)) <= max (opts s).

(** A step part that keeps the options and grows neither the map nor the
    creations in flight. *)
Definition Shrinks (s s' : PoolState) : Prop :=
  opts s' = opts s /\ size s' <= size s /\ (creations (tasks s') <= creations (tasks s))%nat.

(** A pool with one idle connection in the map, not available, and one
    waiting caller. *)
Definition pool_one_pending : PoolState :=
  mkPool po_example 0 [(0%nat, mkMeta 0 0 0)] [] [3%nat] [3%nat] [] true false false 1.

(** A pool of [po_example] where caller 0 started a connection creation
    and [end()] was called before that creation resolved. *)
Definition pool_end_race : PoolState :=
  match new_pool po_example with
  | Some s0 => match run s0 [Acquire 0; CallEnd; Finish 1 true] with
               | Some s => s
               | None => s0
               end
  | None => pool_one_pending
  end.

(** A pool with one idle available connection. *)
Definition pool_idle_one : PoolState :=
  mkPool po_example 0 [(0%nat, mkMeta 0 0 1)] [0%nat] [] [] [] true false false 1.

(** The connection ids of the pool's [Map], in insertion order. *)
Definition keys (s : PoolState) : list nat := map fst (connections s).

(** A pool with [min = 1] and two connections idle for 100 s. *)
Definition pool_two_idle : PoolState :=
  mkPool (mkPoolOptions 1 2 30000 30000 1800000 false false) 100000
         [(0%nat, mkMeta 0 0 1); (1%nat, mkMeta 0 0 1)] [0%nat; 1%nat] [] [] [] true false false 2.

(** The pool while [initialize()] runs: [n] initial creations in flight,
    [k] connections created so far; [cl]: [end()] has settled. *)
Definition init_state (o : PoolOptions) (n k : nat) (timer cl : bool) : PoolState :=
  mkPool o 0 (map (fun i => (i, mkMeta 0 0 0)) (seq 0 k)) (seq 0 k) [] []
         (repeat (TCreate ForInit) n) timer false cl k.

(** A pool with [min = 0] and [max = 2] where caller 0 holds the only
    connection and caller 1 has started a connection creation. *)
Definition pool_waiter_race : PoolState :=
  match new_pool (mkPoolOptions 0 2 30000 30000 1800000 false false) with
  | Some s0 => match run s0 [Acquire 0; Finish 0 true; Acquire 1] with
               | Some s => s
               | None => s0
               end
  | None => pool_one_pending
  end.

End Pool.

(** ** Example sessions *)


(** An environment whose digests and base64 are the identity, whose TLS
    handshake succeeds, with pid 1234. *)
Definition env0 : Env := mkEnv (fun l => l) (fun l => l) (fun l => l) None 1234.

(** A fresh socket whose buffer holds ['N']. *)
Definition session_N : Session :=
  mkSession (mkOptions "admin" "password" "system" None false) true false [78] [] []
            false (Some 73) None None None 0.

(** A session whose buffer holds an MD5 authentication request with
    salt [[7; 9]]. *)
Definition session_md5 : Session :=
  mkSession (mkOptions "admin" "password" "system" None false) true false
            [82; 0; 0; 0; 5; 7; 9] [] [] false (Some 73) None (Some 6) None 0.

(** [SELECT 1 AS V, 2 AS v]: a row description with the names "V" and
    "v" (type 23, size 4, modifier -1, text format), and a data row with
    both columns present holding ["1"] and ["2"]. *)
Definition rowdesc_Vv : list Z :=
  [0; 2; 86; 0; 0; 0; 0; 23; 0; 4; 255; 255; 255; 255; 0;
   118; 0; 0; 0; 0; 23; 0; 4; 255; 255; 255; 255; 0].
Definition row_12 : list Z := [192; 0; 0; 0; 5; 49; 0; 0; 0; 5; 50].

Definition field_v : FieldDescription := mkField "v" 0 0 23 4 (-1) 0.

(** Options with [securityLevel = 1]. *)
Definition opts_level1 : ConnectionOptions :=
  mkOptions "admin" "password" "system" (Some 1) false.

(** A server that accepts version 6, acknowledges the database, answers
    ['S'] to the security negotiation, confirms TLS with ['N'],
    acknowledges the user, protocol, pid and client type, sends
    AuthenticationOk and then ReadyForQuery with status ['I']. *)
Definition transcript_S : list Z :=
  [78; 78; 83; 78; 78; 78; 78; 78; 82; 0; 0; 0; 0; 90; 0; 0; 0; 0; 0; 0; 0; 1; 73].

(** A connected session with nothing buffered and nothing more to come. *)
Definition session_idle : Session :=
  mkSession (mkOptions "admin" "password" "system" None false) true false [] [] []
            false (Some 73) None (Some 6) None 0.

(** A backend message as [readQueryResponse] reads it: the type byte,
    four unused bytes, the payload length and the payload. *)
Definition frame (t : Z) (data : list Z) : list Z :=
  [t; 0; 0; 0; 0] ++ be32 (Z.of_nat (List.length data)) ++ data.

(** The number of ['?'] in a text. *)
Definition placeholders (l : list ascii) : nat :=
  List.length (filter (fun c => Ascii.eqb c "?"%char) l).

(** One field of a row description as the server writes it: the name
    and its NUL, the type oid, the size, the modifier and the format. *)
Definition field_bytes (f : FieldDescription) : list Z :=
  bytes_of_string f.(name) ++ [0] ++ be32 f.(typeOid) ++ be16 f.(typeSize)
  ++ be32 f.(typeMod) ++ [f.(formatCode)].

(** A row description message payload: the field count, then the
    fields. *)
Definition row_description_bytes (fs : list FieldDescription) : list Z :=
  be16 (Z.of_nat (List.length fs)) ++ List.concat (map field_bytes fs).

(** The fields [parseRowDescription] makes of [fs], the [i]-th one
    numbered [i]. *)
Fixpoint described (fs : list FieldDescription) (i : Z) : list FieldDescription :=
  match fs with
  | [] => []
  | f :: fs' => mkField (ascii_lower f.(name)) 0 i f.(typeOid) f.(typeSize) f.(typeMod)
                        f.(formatCode) :: described fs' (i + 1)
  end.

(** What [parseRowDescription] needs of a field to read it back: an
    ASCII name without NUL, and values that fit their widths. *)
Definition field_readable (f : FieldDescription) : Prop :=
  ~ In 0 (bytes_of_string f.(name)) /\ Forall (fun b => b < 128) (bytes_of_string f.(name))
  /\ - 2 ^ 31 <= f.(typeOid) < 2 ^ 31 /\ - 2 ^ 15 <= f.(typeSize) < 2 ^ 15
  /\ - 2 ^ 31 <= f.(typeMod) < 2 ^ 31 /\ 0 <= f.(formatCode) < 256.

(** The bytes a server sends for [SELECT 1 AS V, 2 AS v]. *)
Definition select_exchange : list Z :=
  frame 84 rowdesc_Vv ++ List.concat (List.map (frame 68) [row_12])
  ++ frame 67 (bytes_of_string "SELECT 1" ++ [0]) ++ frame 90 [73] ++ [].

(** [m] leaves [closed] as it found it and never drops the socket. *)
Definition keeps_closed {A} (m : M A) : Prop :=
  forall s, match m s with
            | Done _ s' | Throw _ s' | Hang s' =>
                closed s' = closed s /\ (has_socket s = true -> has_socket s' = true)
            | NoFuel | Unmodelled => True
            end.

(** A closed connection with no socket, whose transport will answer a
    level-1 handshake with ['S']. *)
Definition reopened : Session := drop_socket (new_session opts_level1 [EvData transcript_S]).
(** That connection after [connect()]. *)
Definition reconnected : Session :=
  match connect env0 50 reopened with Done _ s' => s' | _ => reopened end.

(** A bigint column and a row holding 2^53 + 1 in it. *)
Definition field_big : FieldDescription := mkField "n" 0 0 20 8 (-1) 0.
Definition row_big : list Z := [128; 0; 0; 0; 20] ++ bytes_of_string "9007199254740993".

(** * Properties *)

(** ** The pool *)

Module PoolFacts.
Import Pool.

(** C10: [release(c)] of a connection that is not in the pool's map
    rejects with the interface error "Connection does not belong to this
    pool" and changes nothing: the map, the available list and the
    pending queue are those of before, and the connection is neither
    adopted, nor validated, nor closed. *)
Theorem release_foreign_connection (s : PoolState) (c : nat) :
  has_conn s c = false ->
  step s (Release c) =
    Some (s, [ReleaseRejected c (InterfaceError "Connection does not belong to this pool")]).
Proof.
  intros H. simpl. unfold release. rewrite H. reflexivity.
Qed.

Lemma release_foreign_connection_witness :
  has_conn (mkPool po_example 0 [(0%nat, mkMeta 0 0 0)] [] [3%nat] [3%nat] [] true false false 1) 7 = false
  /\ step (mkPool po_example 0 [(0%nat, mkMeta 0 0 0)] [] [3%nat] [3%nat] [] true false false 1) (Release 7)
     = Some (mkPool po_example 0 [(0%nat, mkMeta 0 0 0)] [] [3%nat] [3%nat] [] true false false 1,
             [ReleaseRejected 7 (InterfaceError "Connection does not belong to this pool")]).
Proof.
  split; [reflexivity | apply release_foreign_connection; reflexivity].
Defined.

Lemma release_handoff_head (s : PoolState) (c r : nat) (rs : list nat) :
  pendingAcquires s = r :: rs ->
  release_handoff s c =
    (with_pending (touch s c) rs (remove Nat.eq_dec r (timers s)), [Resolved r c]).
Proof.
  intros H. unfold release_handoff. simpl. rewrite H. reflexivity.
Qed.

(** C5: when [release(c)] reaches its hand-off (at once when return
    validation is off, or once the validation query has succeeded) and
    the pending queue is [r :: rs], the oldest request [r] is resolved
    with exactly [c], its deadline timer is cleared, the queue becomes
    [rs] and the available list is left as it was: [c] is not put into
    it. *)
Theorem release_serves_oldest_pending (s : PoolState) (c r : nat) (rs : list nat) :
  pendingAcquires s = r :: rs ->
  (has_conn s c = true -> validateOnReturn (opts s) = false ->
   exists s', step s (Release c) = Some (s', [Resolved r c])
              /\ pendingAcquires s' = rs
              /\ availableConnections s' = availableConnections s
              /\ ~ In r (timers s'))
  /\
  (forall k rest, take_task k (tasks s) = Some (TValidateReturn c, rest) ->
   exists s', step s (Finish k true) = Some (s', [Resolved r c])
              /\ pendingAcquires s' = rs
              /\ availableConnections s' = availableConnections s
              /\ ~ In r (timers s')).
Proof.
  intros Hp. split.
  - intros Hc Hv. simpl. unfold release. rewrite Hc, Hv. simpl.
    rewrite (release_handoff_head s c r rs Hp).
    eexists. split; [reflexivity|]. simpl.
    split; [reflexivity|]. split; [reflexivity|]. apply remove_In.
  - intros k rest Ht. simpl. rewrite Ht. simpl.
    rewrite (release_handoff_head (with_tasks s rest) c r rs Hp).
    eexists. split; [reflexivity|]. simpl.
    split; [reflexivity|]. split; [reflexivity|]. apply remove_In.
Qed.

Lemma release_serves_oldest_pending_witness :
  pendingAcquires (mkPool po_example 0 [(0%nat, mkMeta 0 0 0)] [] [3%nat; 4%nat] [3%nat; 4%nat] [] true false false 1) = [3%nat; 4%nat]
  /\ has_conn (mkPool po_example 0 [(0%nat, mkMeta 0 0 0)] [] [3%nat; 4%nat] [3%nat; 4%nat] [] true false false 1) 0 = true
  /\ validateOnReturn po_example = false
  /\ exists s', step (mkPool po_example 0 [(0%nat, mkMeta 0 0 0)] [] [3%nat; 4%nat] [3%nat; 4%nat] [] true false false 1)
                     (Release 0) = Some (s', [Resolved 3 0])
              /\ pendingAcquires s' = [4%nat] /\ availableConnections s' = []
              /\ ~ In 3%nat (timers s').
Proof.
  split; [reflexivity|]. split; [reflexivity|]. split; [reflexivity|].
  apply (release_serves_oldest_pending (mkPool po_example 0 [(0%nat, mkMeta 0 0 0)] [] [3%nat; 4%nat] [3%nat; 4%nat] [] true false false 1) 0 3 [4%nat] eq_refl); reflexivity.
Defined.

(** Facts on the pieces of a step. *)
Lemma creations_app (a b : list task) :
  creations (a ++ b) = (creations a + creations b)%nat.
Proof. induction a as [|t a IH]; [reflexivity|]. destruct t; simpl; rewrite ?IH; reflexivity. Qed.

Lemma creations_repeat_backfill (n : nat) :
  creations (repeat (TCreate ForBackfill) n) = n.
Proof. induction n; simpl; auto. Qed.

Lemma take_task_creations (k : nat) (ts rest : list task) (t : task) :
  take_task k ts = Some (t, rest) ->
  creations ts = (creations rest + match t with TCreate _ => 1 | _ => 0 end)%nat.
Proof.
  revert ts rest. induction k as [|k IH]; intros ts rest H.
  - destruct ts as [|t0 ts]; [discriminate|]. simpl in H.
    injection H as H1 H2. subst. destruct t; simpl; lia.
  - destruct ts as [|t0 ts]; [discriminate|]. simpl in H.
    destruct (take_task k ts) as [[t' r']|] eqn:E; [|discriminate].
    injection H as H1 H2. subst. specialize (IH _ _ E). destruct t0; simpl; lia.
Qed.

Lemma filter_length_le {A} (f : A -> bool) (l : list A) :
  (List.length (filter f l) <= List.length l)%nat.
Proof. induction l as [|x l IH]; simpl; [lia|]. destruct (f x); simpl; lia. Qed.

Lemma removeConnection_shape (s : PoolState) (c : nat) :
  opts (fst (removeConnection s c)) = opts s /\ tasks (fst (removeConnection s c)) = tasks s /\ size (fst (removeConnection s c)) <= size s.
Proof.
  unfold removeConnection, size. simpl. split; [reflexivity|]. split; [reflexivity|].
  pose proof (filter_length_le (fun e => negb (Nat.eqb (fst e) c)) (connections s)). lia.
Qed.

Lemma remove_all_cons (s : PoolState) (c : nat) (cs : list nat) :
  fst (remove_all s (c :: cs)) = fst (remove_all (fst (removeConnection s c)) cs).
Proof. simpl. destruct (remove_all _ cs); reflexivity. Qed.

Lemma remove_all_shape (cs : list nat) (s : PoolState) :
  opts (fst (remove_all s cs)) = opts s /\ tasks (fst (remove_all s cs)) = tasks s /\ size (fst (remove_all s cs)) <= size s.
Proof.
  revert s. induction cs as [|c cs IH]; intros s; [simpl; repeat split; lia|].
  rewrite remove_all_cons.
  destruct (removeConnection_shape s c) as [Ho1 [Ht1 Hs1]].
  destruct (IH (fst (removeConnection s c))) as [Ho2 [Ht2 Hs2]].
  split; [congruence|]. split; [congruence|]. lia.
Qed.

Lemma touch_use_shape (s : PoolState) (c : nat) :
  opts (touch_use s c) = opts s /\ tasks (touch_use s c) = tasks s /\ size (touch_use s c) = size s.
Proof. unfold touch_use, size. simpl. rewrite length_map. auto. Qed.

Lemma touch_shape (s : PoolState) (c : nat) :
  opts (touch s c) = opts s /\ tasks (touch s c) = tasks s /\ size (touch s c) = size s.
Proof. unfold touch, size. simpl. rewrite length_map. auto. Qed.

Lemma acquire_loop_inv (s : PoolState) (r : nat) :
  Inv s ->
  ((creations (tasks s) < creations (tasks (fst (acquire_loop s r))))%nat ->
   creations (tasks s) = O) ->
  Inv (fst (acquire_loop s r)).
Proof.
  unfold Inv, acquire_loop. intros [Hm Hs] Hser.
  destruct (availableConnections s) as [|c rest] eqn:Ea.
  - destruct (size s <? max (opts s)) eqn:Elt.
    + simpl in *. rewrite creations_app in *. simpl in *.
      assert (creations (tasks s) = O) as H0 by (apply Hser; lia).
      unfold size in *. simpl. rewrite H0. apply Z.ltb_lt in Elt. unfold size in Elt. lia.
    + unfold enqueue, with_pending, size in *. simpl. auto.
  - destruct (validateOnBorrow (opts (with_conns s (connections s) rest))).
    + unfold with_tasks, with_conns, size in *. simpl. rewrite creations_app. simpl. lia.
    + unfold touch_use, with_conns, size in *. simpl. rewrite length_map. auto.
Qed.

Ltac pool_unfold :=
  unfold Shrinks, Inv, with_conns, with_pending, with_tasks, touch, touch_use,
    set_flags, enqueue, size in *; simpl in *; rewrite ?length_map, ?creations_app in *; simpl in *.

Ltac pool_close := repeat split; try reflexivity; lia.

Lemma Shrinks_Inv (s s' : PoolState) : Inv s -> Shrinks s s' -> Inv s'.
Proof. unfold Inv, Shrinks. intros [H1 H2] [H3 [H4 H5]]. rewrite H3. lia. Qed.

Lemma Shrinks_refl (s : PoolState) : Shrinks s s.
Proof. unfold Shrinks. repeat split; lia. Qed.

Lemma Shrinks_trans (s1 s2 s3 : PoolState) : Shrinks s1 s2 -> Shrinks s2 s3 -> Shrinks s1 s3.
Proof. unfold Shrinks. intros [H1 [H2 H3]] [H4 [H5 H6]]. split; [congruence|]. lia. Qed.

Lemma removeConnection_shrinks (s : PoolState) (c : nat) : Shrinks s (fst (removeConnection s c)).
Proof. destruct (removeConnection_shape s c) as [H1 [H2 H3]]. unfold Shrinks. rewrite H1, H2. pool_close. Qed.

Lemma remove_all_shrinks (s : PoolState) (cs : list nat) : Shrinks s (fst (remove_all s cs)).
Proof. destruct (remove_all_shape cs s) as [H1 [H2 H3]]. unfold Shrinks. rewrite H1, H2. pool_close. Qed.

Lemma release_handoff_shrinks (s : PoolState) (c : nat) : Shrinks s (fst (release_handoff s c)).
Proof.
  unfold release_handoff. simpl. destruct (pendingAcquires s); pool_unfold; pool_close.
Qed.

Lemma release_shrinks (s : PoolState) (c : nat) : Shrinks s (fst (release s c)).
Proof.
  unfold release. destruct (negb (has_conn s c)); [apply Shrinks_refl|].
  destruct (validateOnReturn (opts s)); [|apply release_handoff_shrinks].
  pool_unfold; pool_close.
Qed.

Lemma acquire_timeout_shrinks (s : PoolState) (r : nat) : Shrinks s (fst (acquire_timeout s r)).
Proof. unfold acquire_timeout. pool_unfold; pool_close. Qed.

Lemma end_start_shrinks (s : PoolState) : Shrinks s (fst (end_start s)).
Proof. unfold end_start. destruct (closed s); [apply Shrinks_refl|]. pool_unfold; pool_close. Qed.

Lemma after_init_shape (s : PoolState) :
  opts (after_init s) = opts s /\ tasks (after_init s) = tasks s /\ size (after_init s) = size s.
Proof. unfold after_init. destruct (existsb is_init_task (tasks s)); pool_unfold; auto. Qed.

Lemma eviction_tick_inv (s : PoolState) :
  Inv s ->
  ((creations (tasks s) < creations (tasks (fst (eviction_tick s))))%nat -> creations (tasks s) = O) ->
  Inv (fst (eviction_tick s)).
Proof.
  intros HI Hser. unfold eviction_tick in *.
  destruct (evictIdleConnections s) as [s1 e1] eqn:E1.
  destruct (evictExpiredConnections s1) as [s2 e2] eqn:E2. simpl in *.
  assert (opts s1 = opts s /\ tasks s1 = tasks s /\ size s1 <= size s) as [Ho1 [Ht1 Hs1]].
  { replace s1 with (fst (evictIdleConnections s)) by (rewrite E1; reflexivity).
    apply remove_all_shape. }
  assert (opts s2 = opts s1 /\ tasks s2 = tasks s1 /\ size s2 <= size s1) as [Ho2 [Ht2 Hs2]].
  { replace s2 with (fst (evictExpiredConnections s1)) by (rewrite E2; reflexivity).
    apply remove_all_shape. }
  assert (Inv s2) as HI2.
  { apply (Shrinks_Inv s s2 HI). unfold Shrinks. rewrite Ht2, Ht1, Ho2, Ho1. pool_close. }
  unfold backfillConnections in *.
  destruct (min (opts s2) =? 0); [exact HI2|].
  destruct (0 <? min (opts s2) - size s2) eqn:Ed; [|exact HI2].
  pool_unfold. rewrite creations_repeat_backfill in *. apply Z.ltb_lt in Ed.
  rewrite Ht2, Ht1 in *.
  assert (creations (tasks s) = O) as H0 by (apply Hser; lia).
  destruct HI2 as [Hm Hb]. split; [exact Hm|]. lia.
Qed.

Lemma settle_inv (s : PoolState) (k : nat) (t : task) (rest : list task) (ok : bool) :
  Inv s -> take_task k (tasks s) = Some (t, rest) ->
  ((creations (tasks s) < creations (tasks (fst (settle (with_tasks s rest) t ok))))%nat ->
   creations (tasks s) = O) ->
  Inv (fst (settle (with_tasks s rest) t ok)).
Proof.
  intros HI Ht Hser. pose proof (take_task_creations k (tasks s) rest t Ht) as Hc.
  assert (Shrinks s (with_tasks s rest)) as H0.
  { pool_unfold. destruct t; pool_close. }
  pose proof (Shrinks_Inv _ _ HI H0) as HI0.
  destruct t as [o|r c|c|]; destruct ok.
  - unfold settle, add_connection, after_init in *. destruct o;
      [|destruct (negb _ && negb _)|destruct (existsb is_init_task _)];
      pool_unfold; rewrite ?length_app in *; simpl in *; pool_close.
  - unfold settle in *. destruct o.
    + destruct (_ && _); [exact HI0|]. apply (Shrinks_Inv _ _ HI0). pool_unfold. pool_close.
    + exact HI0.
    + apply (Shrinks_Inv _ _ HI0). destruct (after_init_shape (with_tasks s rest)) as [A [B C]].
      unfold Shrinks. cbn [fst]. rewrite A, B, C. pool_close.
  - apply (Shrinks_Inv _ _ HI0). pool_unfold. pool_close.
  - unfold settle in *.
    destruct (removeConnection (with_tasks s rest) c) as [s1 e1] eqn:E1.
    destruct (acquire_loop s1 r) as [s2 e2] eqn:E2. simpl in *.
    assert (opts s1 = opts s /\ tasks s1 = rest /\ size s1 <= size s) as [A [B C]].
    { replace s1 with (fst (removeConnection (with_tasks s rest) c)) by (rewrite E1; reflexivity).
      destruct (removeConnection_shape (with_tasks s rest) c) as [A [B C]].
      rewrite A, B. pool_unfold. pool_close. }
    replace s2 with (fst (acquire_loop s1 r)) by (rewrite E2; reflexivity).
    apply acquire_loop_inv.
    + apply (Shrinks_Inv _ _ HI). unfold Shrinks. rewrite A, B. pool_close.
    + rewrite E2. simpl. rewrite B. simpl in Hc. rewrite Hc in Hser. lia.
  - apply (Shrinks_Inv _ _ HI0). apply release_handoff_shrinks.
  - apply (Shrinks_Inv _ _ HI0). apply removeConnection_shrinks.
  - unfold settle. pool_unfold. lia.
  - unfold settle. pool_unfold. lia.
Qed.

Ltac take_fst H :=
  let H' := fresh in
  pose proof (f_equal (option_map fst) H) as H'; cbn [option_map fst] in H';
  injection H' as H'; subst; clear H.

Lemma step_inv (s s' : PoolState) (l : label) (evs : list pool_event) :
  Inv s -> step s l = Some (s', evs) ->
  ((creations (tasks s) < creations (tasks s'))%nat -> creations (tasks s) = O) ->
  Inv s'.
Proof.
  intros HI Hst Hser. destruct l as [r|c|k ok|r| |dt|]; cbn [step] in Hst.
  - take_fst Hst. unfold acquire in *.
    destruct (closed s); [exact HI|]. destruct (closing s); [exact HI|].
    apply acquire_loop_inv; assumption.
  - take_fst Hst. apply (Shrinks_Inv _ _ HI). apply release_shrinks.
  - destruct (take_task k (tasks s)) as [[t rest]|] eqn:Et; [|discriminate].
    take_fst Hst. apply (settle_inv s k t rest ok HI Et Hser).
  - destruct (existsb (Nat.eqb r) (timers s)); [|discriminate].
    take_fst Hst. apply (Shrinks_Inv _ _ HI). apply acquire_timeout_shrinks.
  - destruct (evictionTimer s); [|discriminate].
    take_fst Hst. apply eviction_tick_inv; assumption.
  - destruct (0 <=? dt); [|discriminate]. take_fst Hst. pool_unfold. lia.
  - take_fst Hst. apply (Shrinks_Inv _ _ HI). apply end_start_shrinks.
Qed.

Lemma creations_repeat_create (o : owner) (n : nat) :
  creations (repeat (TCreate o) n) = n.
Proof. induction n; simpl; auto. Qed.

Lemma new_pool_inv (o : PoolOptions) (s0 : PoolState) : new_pool o = Some s0 -> Inv s0.
Proof.
  unfold new_pool. intros H.
  destruct ((min o <? 0) || (max o <? 1) || (max o <? min o)) eqn:E; [discriminate|].
  injection H as <-. rewrite !orb_false_iff in E. destruct E as [[E1 E2] E3].
  apply Z.ltb_ge in E1, E2, E3. unfold Inv, size. simpl.
  rewrite creations_repeat_create. lia.
Qed.

Lemma reach_serial_inv (o : PoolOptions) (s : PoolState) : reach_serial o s -> Inv s.
Proof.
  induction 1 as [s0 H0|s l s' evs Hr IH Hst Hser].
  - exact (new_pool_inv o s0 H0).
  - exact (step_inv s s' l evs IH Hst Hser).
Qed.

(** C4 (code bug): [acquire()] compares the map's size with [max] before
    awaiting [createConnection()], and the map only grows once the
    connection is up. Two [acquire()] calls on an empty pool with
    [max = 1] both pass the check, and the pool reaches a state in which
    [getStats()] reports a total of 2 above its [max] of 1. *)
Lemma pool_total_exceeds_max :
  exists s, reachable po_example s /\ st_max (getStats s) < total (getStats s).
Proof.
  exists (mkPool po_example 0 [(0%nat, mkMeta 0 0 1); (1%nat, mkMeta 0 0 1)] [] [] [] [] true false false 2).
  split.
  - exists (mkPool po_example 0 [] [] [] [] [] true false false 0), two_acquires.
    split; reflexivity.
  - vm_compute. reflexivity.
Qed.

(** C4, what holds: in every state reached without starting a connection
    creation while another one is in flight, [getStats()] reports
    [available + inUse = total] and [total <= max]. *)
Theorem pool_stats_serial (o : PoolOptions) (s : PoolState) :
  reach_serial o s ->
  available (getStats s) + inUse (getStats s) = total (getStats s) /\
  total (getStats s) <= st_max (getStats s).
Proof.
  intros H. destruct (reach_serial_inv o s H) as [Hm Hs].
  unfold getStats. simpl. split; [lia|]. lia.
Qed.

Lemma pool_stats_serial_witness :
  reach_serial po_example (mkPool po_example 0 [(0%nat, mkMeta 0 0 1)] [] [] [] [] true false false 1)
  /\ available (getStats (mkPool po_example 0 [(0%nat, mkMeta 0 0 1)] [] [] [] [] true false false 1))
     + inUse (getStats (mkPool po_example 0 [(0%nat, mkMeta 0 0 1)] [] [] [] [] true false false 1))
     = total (getStats (mkPool po_example 0 [(0%nat, mkMeta 0 0 1)] [] [] [] [] true false false 1))
  /\ total (getStats (mkPool po_example 0 [(0%nat, mkMeta 0 0 1)] [] [] [] [] true false false 1))
     <= st_max (getStats (mkPool po_example 0 [(0%nat, mkMeta 0 0 1)] [] [] [] [] true false false 1)).
Proof.
  assert (reach_serial po_example (mkPool po_example 0 [(0%nat, mkMeta 0 0 1)] [] [] [] [] true false false 1)) as H.
  { apply (rs_step po_example (mkPool po_example 0 [] [] [] [] [TCreate (ForAcquire 0)] true false false 0)
             (Finish 0 true) _ [Resolved 0 0]).
    - apply (rs_step po_example (mkPool po_example 0 [] [] [] [] [] true false false 0)
               (Acquire 0) _ []).
      + apply rs_init. reflexivity.
      + reflexivity.
      + simpl. intros _. reflexivity.
    - reflexivity.
    - simpl. lia. }
  split; [exact H|]. apply (pool_stats_serial po_example _ H).
Defined.

End PoolFacts.

(** ** Reading from the socket *)

Module ReadFacts.

Lemma slice_index_in (len i : Z) : 0 <= i <= len -> slice_index len i = i.
Proof.
  intros H. unfold slice_index. destruct (i <? 0) eqn:E; [apply Z.ltb_lt in E; lia|].
  apply Z.min_l. lia.
Qed.

Lemma js_slice_prefix (b : list Z) (n : Z) :
  0 <= n <= Z.of_nat (List.length b) -> js_slice b 0 n = firstn (Z.to_nat n) b.
Proof.
  intros H. unfold js_slice. rewrite !slice_index_in by lia.
  destruct (n <=? 0) eqn:E.
  - apply Z.leb_le in E. replace n with 0 by lia. reflexivity.
  - rewrite Z.sub_0_r. reflexivity.
Qed.

Lemma js_slice_from_n (b : list Z) (n : Z) :
  0 <= n <= Z.of_nat (List.length b) -> js_slice_from b n = skipn (Z.to_nat n) b.
Proof.
  intros H. unfold js_slice_from, js_slice. rewrite !slice_index_in by lia.
  destruct (Z.of_nat (List.length b) <=? n) eqn:E.
  - apply Z.leb_le in E. symmetry. apply skipn_all2. lia.
  - apply firstn_all2. rewrite length_skipn. lia.
Qed.

Lemma readBytes_ev_unfold (n : Z) (buf : list Z) (evs : list sock_event) :
  readBytes_ev n buf evs =
  if Z.of_nat (List.length buf) <? n then
    match evs with
    | [] => ReadPending buf
    | EvData d :: evs' => readBytes_ev n (buf ++ d) evs'
    | EvError m :: evs' => ReadFailed (OperationalError ("Socket error: " ++ m)) buf evs'
    | EvEnd :: evs' => ReadFailed (ConnectionClosedError "Connection closed by server") buf evs'
    end
  else ReadDone (js_slice buf 0 n) (js_slice_from buf n) evs.
Proof. destruct evs; reflexivity. Qed.

(** Enough bytes buffered: the first [n] are returned at once. *)
Lemma readBytes_ev_ready (n : Z) (buf : list Z) (evs : list sock_event) :
  0 <= n <= Z.of_nat (List.length buf) ->
  readBytes_ev n buf evs = ReadDone (firstn (Z.to_nat n) buf) (skipn (Z.to_nat n) buf) evs.
Proof.
  intros H. rewrite readBytes_ev_unfold.
  destruct (Z.of_nat (List.length buf) <? n) eqn:E; [apply Z.ltb_lt in E; lia|].
  rewrite js_slice_prefix, js_slice_from_n by lia. reflexivity.
Qed.

Lemma byte_at_head (b : Z) (l : list Z) : byte_at (b :: l) 0 = b.
Proof. reflexivity. Qed.


Lemma readBytes_ready (n : Z) (s : Session) :
  0 <= n <= Z.of_nat (List.length (buffer s)) ->
  readBytes n s = Done (firstn (Z.to_nat n) (buffer s))
                       (set_io s (skipn (Z.to_nat n) (buffer s)) (events s)).
Proof.
  intros H. unfold readBytes.
  destruct (Z.of_nat (List.length (buffer s)) <? n) eqn:E; [apply Z.ltb_lt in E; lia|].
  rewrite readBytes_ev_ready by exact H. reflexivity.
Qed.

Lemma readBytes1_cons (s : Session) (b : Z) (rest : list Z) :
  buffer s = b :: rest -> readBytes 1 s = Done [b] (set_io s rest (events s)).
Proof.
  intros H. rewrite readBytes_ready by (rewrite H; simpl; lia). rewrite H. reflexivity.
Qed.

(** Rewriting the first read of a goal whose buffer holds enough bytes. *)
Ltac read_ready :=
  match goal with
  | |- context [readBytes ?n ?st] =>
      rewrite (readBytes_ready n st) by (cbn; lia);
      let k := eval vm_compute in (Z.to_nat n) in change (Z.to_nat n) with k;
      cbn [buffer set_io events firstn skipn]
  end.

End ReadFacts.

(** ** Security negotiation *)

Module SecurityFacts.
Import ReadFacts.






End SecurityFacts.

(** ** Version negotiation *)

Module NegotiationFacts.
Import ReadFacts.

(** C6: [negotiateHandshake] starts the loop at [CP_VERSION_6]. Each
    round sends [HSV2_CLIENT_BEGIN] with the proposed version and reads
    one byte: ['N'] resolves with that version recorded (and
    [protocol2 = 0]); ['M'] reads one more byte [d] and rejects with
    "Unsupported handshake version" if [d - '0' < CP_VERSION_2], else
    goes round again proposing [d - '0']; ['E'] rejects with "Bad
    attribute value error"; any other byte rejects with "Bad protocol
    error". *)
Theorem negotiate_handshake_replies (f : nat) (v : Z) (s : Session) (b : Z) (rest : list Z) :
  has_socket s = true -> buffer s = b :: rest ->
  (forall fuel, negotiateHandshake fuel = negotiate_loop fuel 6) /\
  let s1 := set_io (add_sent s (be32 8 ++ be16 HSV2_CLIENT_BEGIN ++ be16 v)) rest (events s) in
  (b = 78 -> negotiate_loop (S f) v s = Done tt (set_versions s1 (Some v) (protocol1 s1) 0)) /\
  (b = 77 -> forall d rest', rest = d :: rest' ->
     let s2 := set_io s1 rest' (events s) in
     (d - 48 < CP_VERSION_2 ->
        negotiate_loop (S f) v s = Throw (InterfaceError "Unsupported handshake version") s2) /\
     (CP_VERSION_2 <= d - 48 -> negotiate_loop (S f) v s = negotiate_loop f (d - 48) s2)) /\
  (b = 69 -> negotiate_loop (S f) v s = Throw (InterfaceError "Bad attribute value error") s1) /\
  (b <> 78 -> b <> 77 -> b <> 69 ->
     negotiate_loop (S f) v s = Throw (InterfaceError "Bad protocol error") s1).
Proof.
  intros Hs Hb. split; [reflexivity|]. intros s1.
  cbn [negotiate_loop]. cbv [sendMessage sendRawMessage bind get modify]. rewrite Hs.
  rewrite (readBytes1_cons _ b rest) by exact Hb. rewrite byte_at_head.
  split; [|split; [|split]].
  - intros ->. reflexivity.
  - intros -> d rest' ->. change (77 =? 78) with false. change (77 =? 77) with true. cbv beta iota.
    rewrite (readBytes1_cons _ d rest') by reflexivity.
    rewrite byte_at_head. split; intros H.
    + rewrite (proj2 (Z.ltb_lt _ _) H). reflexivity.
    + rewrite (proj2 (Z.ltb_ge _ _) H). reflexivity.
  - intros ->. reflexivity.
  - intros H78 H77 H69.
    rewrite (proj2 (Z.eqb_neq b 78) H78), (proj2 (Z.eqb_neq b 77) H77), (proj2 (Z.eqb_neq b 69) H69).
    reflexivity.
Qed.

Lemma negotiate_handshake_replies_witness :
  has_socket session_N = true /\ buffer session_N = 78 :: [] /\
  negotiate_loop 1 6 session_N =
    Done tt (set_versions (set_io (add_sent session_N (be32 8 ++ be16 HSV2_CLIENT_BEGIN ++ be16 6))
                                  [] (events session_N)) (Some 6) None 0).
Proof.
  split; [reflexivity|]. split; [reflexivity|].
  destruct (negotiate_handshake_replies 0 6 session_N 78 [] eq_refl eq_refl) as [_ [HN _]].
  exact (HN eq_refl).
Defined.

End NegotiationFacts.

(** ** Authentication *)

Module AuthFacts.
Import ReadFacts.

Lemma drop_eq_spec (l : list Z) :
  exists k, l = repeat 61 k ++ drop_eq l /\ (forall x l', drop_eq l = x :: l' -> x <> 61).
Proof.
  induction l as [|b l IH].
  - exists O. split; [reflexivity|]. intros x l' H. discriminate.
  - simpl. destruct (b =? 61) eqn:E.
    + apply Z.eqb_eq in E. subst b. destruct IH as [k [Hk Hh]].
      exists (S k). split; [simpl; rewrite <- Hk; reflexivity|exact Hh].
    + exists O. split; [reflexivity|]. intros x l' H. injection H as <- _.
      apply Z.eqb_neq. exact E.
Qed.

(** [.replace(/=+$/, '')] removes exactly the trailing run of ['=']. *)
Lemma strip_padding_spec (l : list Z) :
  (exists k, l = strip_padding l ++ repeat 61 k) /\ ~ (exists p, strip_padding l = p ++ [61]).
Proof.
  destruct (drop_eq_spec (rev l)) as [k [E H]]. unfold strip_padding. split.
  - exists k. rewrite <- (rev_involutive l) at 1. rewrite E at 1. rewrite rev_app_distr, rev_repeat. reflexivity.
  - intros [p Hp]. apply (f_equal (@rev Z)) in Hp.
    rewrite rev_involutive, rev_app_distr in Hp. simpl in Hp.
    exact (H 61 (rev p) Hp eq_refl).
Qed.

(** C7: on ['R'] with scheme code [5] (MD5) the client reads a 2-byte
    salt [[x; y]] and sends, length-prefixed and NUL-terminated,
    [base64(md5([x; y] ++ password))] with its trailing ['='] removed,
    then waits for AuthenticationOk; with code [6] (SHA256) the same with
    [sha256]; any code other than [0], [3], [5] and [6] rejects with the
    interface error "Unsupported authentication type: <code>". The
    stripping removes exactly the trailing run of ['=']. *)
Theorem authenticate_schemes (env : Env) (s : Session) (t0 t1 t2 t3 code : Z) (rest : list Z) :
  has_socket s = true -> buffer s = 82 :: t0 :: t1 :: t2 :: t3 :: rest ->
  readInt32BE [t0; t1; t2; t3] 0 = Some code ->
  (code = AUTH_REQ_MD5 -> forall x y rest', rest = x :: y :: rest' ->
     authenticate env s =
       waitForAuthOk (add_sent (set_io s rest' (events s))
         (credential_message (strip_padding (base64 env (md5 env ([x; y] ++ bytes_of_string (password (options s))))))))) /\
  (code = AUTH_REQ_SHA256 -> forall x y rest', rest = x :: y :: rest' ->
     authenticate env s =
       waitForAuthOk (add_sent (set_io s rest' (events s))
         (credential_message (strip_padding (base64 env (sha256 env ([x; y] ++ bytes_of_string (password (options s))))))))) /\
  (code <> AUTH_REQ_OK -> code <> AUTH_REQ_PASSWORD -> code <> AUTH_REQ_MD5 -> code <> AUTH_REQ_SHA256 ->
     authenticate env s =
       Throw (InterfaceError ("Unsupported authentication type: " ++ js_string_of_Z code))
             (set_io s rest (events s))) /\
  (forall l, (exists k, l = strip_padding l ++ repeat 61 k) /\ ~ (exists p, strip_padding l = p ++ [61])).
Proof.
  intros Hs Hb Hc.
  cbv [authenticate bind get]. rewrite (readBytes1_cons _ 82 _ Hb). rewrite byte_at_head.
  change (82 =? MESSAGE_TYPE_ERROR_RESPONSE) with false.
  change (negb (82 =? MESSAGE_TYPE_AUTHENTICATION)) with false.
  cbv beta iota. cbv [readInt32 bind]. read_ready. rewrite Hc. cbv [ret]. cbv beta iota.
  split; [|split; [|split]].
  - intros -> x y rest' ->.
    change (AUTH_REQ_MD5 =? AUTH_REQ_OK) with false. change (AUTH_REQ_MD5 =? AUTH_REQ_PASSWORD) with false.
    change (AUTH_REQ_MD5 =? AUTH_REQ_MD5) with true. cbv beta iota.
    read_ready. cbv [sendRawMessage bind get modify]. cbn [has_socket set_io]. rewrite Hs. reflexivity.
  - intros -> x y rest' ->.
    change (AUTH_REQ_SHA256 =? AUTH_REQ_OK) with false. change (AUTH_REQ_SHA256 =? AUTH_REQ_PASSWORD) with false.
    change (AUTH_REQ_SHA256 =? AUTH_REQ_MD5) with false. change (AUTH_REQ_SHA256 =? AUTH_REQ_SHA256) with true.
    cbv beta iota.
    read_ready. cbv [sendRawMessage bind get modify]. cbn [has_socket set_io]. rewrite Hs. reflexivity.
  - intros H0 H3 H5 H6.
    rewrite (proj2 (Z.eqb_neq _ _) H0), (proj2 (Z.eqb_neq _ _) H3), (proj2 (Z.eqb_neq _ _) H5),
      (proj2 (Z.eqb_neq _ _) H6).
    reflexivity.
  - exact strip_padding_spec.
Qed.

Lemma authenticate_schemes_witness :
  has_socket session_md5 = true /\ buffer session_md5 = 82 :: 0 :: 0 :: 0 :: 5 :: [7; 9] /\
  readInt32BE [0; 0; 0; 5] 0 = Some 5 /\
  authenticate env0 session_md5 =
    waitForAuthOk (add_sent (set_io session_md5 [] (events session_md5))
      (credential_message (strip_padding (base64 env0 (md5 env0 ([7; 9] ++ bytes_of_string "password")))))).
Proof.
  split; [reflexivity|]. split; [reflexivity|]. split; [reflexivity|].
  destruct (authenticate_schemes env0 session_md5 0 0 0 5 5 [7; 9] eq_refl eq_refl eq_refl) as [H5 _].
  exact (H5 eq_refl 7 9 [] eq_refl).
Defined.

End AuthFacts.

(** ** What [readBytes] returns *)

Module ReadSpec.
Import ReadFacts.

Lemma readBytes_ev_spec (n : Z) (buf : list Z) (evs : list sock_event) :
  0 <= n ->
  match readBytes_ev n buf evs with
  | ReadDone r rest evs' =>
      exists chunks, evs = map EvData chunks ++ evs' /\ r ++ rest = buf ++ List.concat chunks
        /\ Z.of_nat (List.length r) = n
        /\ (forall j, (j < List.length chunks)%nat ->
                      Z.of_nat (List.length (buf ++ List.concat (firstn j chunks))) < n)
  | ReadFailed e b evs' =>
      exists chunks ev, evs = map EvData chunks ++ ev :: evs' /\ b = buf ++ List.concat chunks
        /\ Z.of_nat (List.length b) < n
        /\ ((exists m, ev = EvError m /\ e = OperationalError ("Socket error: " ++ m))
            \/ (ev = EvEnd /\ e = ConnectionClosedError "Connection closed by server"))
  | ReadPending b =>
      exists chunks, evs = map EvData chunks /\ b = buf ++ List.concat chunks /\ Z.of_nat (List.length b) < n
  end.
Proof.
  intros Hn. revert buf. induction evs as [|ev evs IH]; intros buf; rewrite readBytes_ev_unfold.
  - destruct (Z.of_nat (List.length buf) <? n) eqn:E.
    + apply Z.ltb_lt in E. exists []. rewrite app_nil_r. auto.
    + apply Z.ltb_ge in E. rewrite js_slice_prefix, js_slice_from_n by lia.
      exists []. split; [reflexivity|]. split; [rewrite firstn_skipn, app_nil_r; reflexivity|].
      split; [rewrite length_firstn; lia|]. simpl. lia.
  - destruct (Z.of_nat (List.length buf) <? n) eqn:E.
    + apply Z.ltb_lt in E. destruct ev as [d|m|].
      * specialize (IH (buf ++ d)).
        destruct (readBytes_ev n (buf ++ d) evs) as [r rest evs'|e b evs'|b].
        -- destruct IH as [chunks [H1 [H2 [H3 H4]]]]. exists (d :: chunks).
           split; [simpl; rewrite H1; reflexivity|]. split; [simpl; rewrite H2, app_assoc; reflexivity|].
           split; [exact H3|]. intros [|j] Hj; [simpl; rewrite app_nil_r; exact E|].
           simpl. rewrite app_assoc. apply H4. simpl in Hj. lia.
        -- destruct IH as [chunks [ev [H1 [H2 H3]]]]. exists (d :: chunks), ev.
           split; [simpl; rewrite H1; reflexivity|]. split; [simpl; rewrite H2, app_assoc; reflexivity|].
           exact H3.
        -- destruct IH as [chunks [H1 [H2 H3]]]. exists (d :: chunks).
           split; [simpl; rewrite H1; reflexivity|]. split; [simpl; rewrite H2, app_assoc; reflexivity|].
           exact H3.
      * exists [], (EvError m). rewrite app_nil_r. split; [reflexivity|]. split; [reflexivity|].
        split; [exact E|]. left. eauto.
      * exists [], EvEnd. rewrite app_nil_r. split; [reflexivity|]. split; [reflexivity|].
        split; [exact E|]. right. auto.
    + apply Z.ltb_ge in E. rewrite js_slice_prefix, js_slice_from_n by lia.
      exists []. split; [reflexivity|]. split; [rewrite firstn_skipn, app_nil_r; reflexivity|].
      split; [rewrite length_firstn; lia|]. simpl. lia.
Qed.

(** C8: [readBytes(n)] for [n >= 0] resolves only once the buffer plus
    the data that arrived holds [n] bytes, consuming no data event past
    that point; it returns exactly the first [n] of those bytes and
    keeps the rest buffered. If an ['error'] or ['end'] event comes
    first it rejects with [OperationalError("Socket error: ...")] or
    [ConnectionClosedError("Connection closed by server")] (with no
    socket, [ConnectionClosedError]), and if nothing more arrives it
    stays suspended; it never resolves with fewer than [n] bytes. *)
Theorem readBytes_exact (n : Z) (s : Session) :
  0 <= n ->
  match readBytes n s with
  | Done r s' =>
      exists chunks, events s = map EvData chunks ++ events s'
        /\ r ++ buffer s' = buffer s ++ List.concat chunks
        /\ Z.of_nat (List.length r) = n
        /\ (forall j, (j < List.length chunks)%nat ->
                      Z.of_nat (List.length (buffer s ++ List.concat (firstn j chunks))) < n)
  | Throw e s' =>
      exists chunks, Z.of_nat (List.length (buffer s ++ List.concat chunks)) < n
        /\ buffer s' = buffer s ++ List.concat chunks
        /\ ((exists m evs', events s = map EvData chunks ++ EvError m :: evs'
                           /\ e = OperationalError ("Socket error: " ++ m))
            \/ (exists evs', events s = map EvData chunks ++ EvEnd :: evs'
                           /\ e = ConnectionClosedError "Connection closed by server")
            \/ (chunks = [] /\ has_socket s = false /\ e = ConnectionClosedError "Connection is closed"))
  | Hang s' =>
      exists chunks, events s = map EvData chunks /\ buffer s' = buffer s ++ List.concat chunks
        /\ Z.of_nat (List.length (buffer s')) < n
  | NoFuel | Unmodelled => False
  end.
Proof.
  intros Hn. unfold readBytes.
  destruct (Z.of_nat (List.length (buffer s)) <? n) eqn:E; simpl.
  - destruct (has_socket s) eqn:Hs; simpl.
    + pose proof (readBytes_ev_spec n (buffer s) (events s) Hn) as H.
      destruct (readBytes_ev n (buffer s) (events s)) as [r rest evs'|e b evs'|b]; simpl.
      * exact H.
      * destruct H as [chunks [ev [H1 [H2 [H3 H4]]]]]. exists chunks. subst b.
        split; [exact H3|]. split; [reflexivity|].
        destruct H4 as [[m [-> ->]]|[-> ->]]; [left; eauto|right; left; eauto].
      * exact H.
    + exists []. rewrite app_nil_r. apply Z.ltb_lt in E.
      split; [exact E|]. split; [reflexivity|]. right. right. auto.
  - pose proof (readBytes_ev_spec n (buffer s) (events s) Hn) as H.
    destruct (readBytes_ev n (buffer s) (events s)) as [r rest evs'|e b evs'|b]; simpl.
    + exact H.
    + destruct H as [chunks [ev [H1 [H2 [H3 H4]]]]]. exists chunks. subst b.
      split; [exact H3|]. split; [reflexivity|].
      destruct H4 as [[m [-> ->]]|[-> ->]]; [left; eauto|right; left; eauto].
    + exact H.
Qed.

Lemma readBytes_exact_witness :
  0 <= 3 /\
  match readBytes 3 (set_io session_N [78] [EvData [1]; EvData [2; 3]; EvEnd]) with
  | Done r s' =>
      exists chunks, events (set_io session_N [78] [EvData [1]; EvData [2; 3]; EvEnd])
                     = map EvData chunks ++ events s'
        /\ r ++ buffer s' = [78] ++ List.concat chunks
        /\ Z.of_nat (List.length r) = 3
        /\ (forall j, (j < List.length chunks)%nat ->
                      Z.of_nat (List.length ([78] ++ List.concat (firstn j chunks))) < 3)
  | _ => True
  end.
Proof.
  split; [lia|].
  exact (readBytes_exact 3 (set_io session_N [78] [EvData [1]; EvData [2; 3]; EvEnd]) ltac:(lia)).
Defined.

End ReadSpec.

(** ** Data rows *)

Module RowFacts.
Import ReadFacts.

Lemma js_slice_mid (b : list Z) (x y : Z) :
  0 <= x <= y -> y <= Z.of_nat (List.length b) ->
  js_slice b x y = firstn (Z.to_nat (y - x)) (skipn (Z.to_nat x) b).
Proof.
  intros H1 H2. unfold js_slice. rewrite !slice_index_in by lia.
  destruct (y <=? x) eqn:E; [|reflexivity].
  apply Z.leb_le in E. replace (y - x) with 0 by lia. reflexivity.
Qed.

Lemma readInt32BE_some_bounds (data : list Z) (off v : Z) :
  readInt32BE data off = Some v -> 0 <= off /\ off + 4 <= Z.of_nat (List.length data).
Proof.
  unfold readInt32BE. destruct (0 <=? off) eqn:E1, (off + 4 <=? Z.of_nat (List.length data)) eqn:E2;
    simpl; intros H; try discriminate.
  apply Z.leb_le in E1, E2. lia.
Qed.

Lemma nth_flat_map_8 (g : nat -> list Z) (n a i : nat) :
  (forall x, List.length (g x) = 8%nat) -> (i < 8 * n)%nat ->
  nth i (flat_map g (seq a n)) 0 = nth (i mod 8) (g (a + i / 8)%nat) 0.
Proof.
  intros Hg. revert a i. induction n as [|n IH]; intros a i Hi; [lia|].
  cbn [seq flat_map]. destruct (Nat.lt_ge_cases i 8) as [Hlt|Hge].
  - rewrite app_nth1 by (rewrite Hg; lia).
    rewrite Nat.mod_small, Nat.div_small by lia. rewrite Nat.add_0_r. reflexivity.
  - rewrite app_nth2 by (rewrite Hg; lia). rewrite Hg, IH by lia.
    set (j := (i - 8)%nat) in *. assert (Hi' : i = (j + 1 * 8)%nat) by (unfold j; lia).
    rewrite Hi', Nat.div_add, Nat.Div0.mod_add by lia.
    replace (S a + j / 8)%nat with (a + (j / 8 + 1))%nat by lia. reflexivity.
Qed.

Lemma nth_byte_bits (b : Z) (j : nat) :
  (j < 8)%nat -> nth j (byte_bits b) 0 = Z.land (Z.shiftr b (Z.of_nat (7 - j))) 1.
Proof.
  intros Hj. unfold byte_bits.
  do 8 (destruct j as [|j]; [reflexivity|]). lia.
Qed.

(** C3: a row of [k] columns starts with a bitmap of [ceil(k/8)] bytes
    ([8 * bl >= k] and [8 * bl < k + 8]) whose bit [i] is bit [7 - i mod 8]
    of byte [i / 8], most significant first; column [i] is read with bit
    [i]. A column with bit [0] is [null] and leaves the data index where
    it was; a column with bit [1] whose 4-byte length [len] (counting
    itself, [len >= 4]) fits in the row yields the [len - 4] bytes after
    the length field and moves the index by exactly [len]. *)
Theorem data_row_bitmap (k : nat) (data : list Z) (f : FieldDescription) (fs : list FieldDescription)
    (bits : list Z) (idx : Z) :
  (k <= 8 * bitmap_length k < k + 8)%nat /\
  (forall i, (i < 8 * bitmap_length k)%nat ->
     nth i (read_bitmap data (bitmap_length k)) 0 =
       Z.land (Z.shiftr (byte_at data (Z.of_nat (i / 8))) (Z.of_nat (7 - i mod 8))) 1) /\
  parse_columns data (f :: fs) bits idx =
    match parse_column data f (nth 0 bits 0) idx with
    | None => None
    | Some (v, idx') =>
        match parse_columns data fs (tl bits) idx' with
        | None => None
        | Some (vs, idx'') => Some (v :: vs, idx'')
        end
    end /\
  parse_column data f 0 idx = Some (CNull, idx) /\
  (forall bit len, bit <> 0 -> readInt32BE data idx = Some len -> 4 <= len ->
     idx + len <= Z.of_nat (List.length data) ->
     exists v, parse_column data f bit idx = Some (CVal (typeOid f) v, idx + len)
       /\ Z.of_nat (List.length v) = len - 4
       /\ v = firstn (Z.to_nat (len - 4)) (skipn (Z.to_nat (idx + 4)) data)).
Proof.
  split; [|split; [|split; [reflexivity|split; [reflexivity|]]]].
  - unfold bitmap_length. pose proof (Nat.div_mod (k + 7) 8 ltac:(lia)).
    pose proof (Nat.mod_upper_bound (k + 7) 8 ltac:(lia)). lia.
  - intros i Hi. unfold read_bitmap.
    rewrite (nth_flat_map_8 (fun i => byte_bits (byte_at data (Z.of_nat i)))) by
      (try (intros; reflexivity); exact Hi).
    cbv beta. rewrite Nat.add_0_l. apply nth_byte_bits. apply Nat.mod_upper_bound. lia.
  - intros bit len Hbit Hr H4 Hlen.
    destruct (readInt32BE_some_bounds data idx len Hr) as [H0 _].
    unfold parse_column. rewrite (proj2 (Z.eqb_neq bit 0) Hbit), Hr.
    rewrite js_slice_mid by lia.
    eexists. split; [f_equal; f_equal; lia|].
    split; [|f_equal; f_equal; lia].
    rewrite length_firstn, length_skipn. lia.
Qed.

Lemma data_row_bitmap_witness :
  readInt32BE row_12 1 = Some 5 /\
  exists v, parse_column row_12 field_v 1 1 = Some (CVal (typeOid field_v) v, 1 + 5)
    /\ Z.of_nat (List.length v) = 5 - 4
    /\ v = firstn (Z.to_nat (5 - 4)) (skipn (Z.to_nat (1 + 4)) row_12).
Proof.
  split; [reflexivity|].
  destruct (data_row_bitmap 2 row_12 field_v [field_v] [1; 1] 1) as [_ [_ [_ [_ H]]]].
  apply H; [lia|reflexivity|lia|cbn; lia].
Defined.

End RowFacts.

(** ** Duplicate column names *)

Module DuplicateColumns.











End DuplicateColumns.

(** ** Parameterised queries *)

Module SqlHelpers.

Lemma string_app_assoc (a b c : string) : ((a ++ b) ++ c)%string = (a ++ (b ++ c))%string.
Proof. induction a as [|x a IH]; simpl; [reflexivity | now rewrite IH]. Qed.

Lemma list_ascii_app (a b : string) :
  list_ascii_of_string (a ++ b) = list_ascii_of_string a ++ list_ascii_of_string b.
Proof. induction a as [|x a IH]; simpl; [reflexivity | now rewrite IH]. Qed.

Lemma substitute_app (l1 l2 : list ascii) (ps : list js_value) (i : nat) :
  substitute (l1 ++ l2) ps i
  = (substitute l1 ps i ++ substitute l2 ps (i + placeholders l1))%string.
Proof.
  revert i. induction l1 as [|c l1 IH]; intros i.
  - cbn. now rewrite Nat.add_0_r.
  - cbn [app substitute]. unfold placeholders. cbn [filter].
    destruct (Ascii.eqb c "?"%char).
    + rewrite IH, string_app_assoc. cbn [List.length]. unfold placeholders.
      now rewrite Nat.add_succ_r.
    + rewrite IH. reflexivity.
Qed.

End SqlHelpers.

Module QueryFacts.
Import SqlHelpers.




End QueryFacts.

(** ** Integers and text on the wire *)

Module WireFacts.

Lemma land255 (x : Z) : Z.land x 255 = x mod 256.
Proof. change 255 with (Z.ones 8). rewrite Z.land_ones by lia. reflexivity. Qed.

Lemma be32_bytes (v : Z) :
  be32 v = [(v / 256 / 256 / 256) mod 256; (v / 256 / 256) mod 256; (v / 256) mod 256; v mod 256].
Proof.
  unfold be32. rewrite !land255, !Z.shiftr_div_pow2 by lia.
  rewrite !Z.div_div by lia. reflexivity.
Qed.

Lemma be16_bytes (v : Z) : be16 v = [(v / 256) mod 256; v mod 256].
Proof.
  unfold be16. rewrite !land255, !Z.shiftr_div_pow2 by lia. reflexivity.
Qed.

Lemma be_unsigned_be32 (v : Z) : be_unsigned (be32 v) = v mod 2 ^ 32.
Proof.
  rewrite be32_bytes. unfold be_unsigned. cbn [fold_left].
  set (q1 := v / 256). set (q2 := q1 / 256). set (q3 := q2 / 256).
  assert (E : v mod 2 ^ 32 = v - 2 ^ 32 * (q3 / 256)).
  { rewrite Z.mod_eq by lia. f_equal. f_equal. unfold q3, q2, q1.
    rewrite !Z.div_div by lia. reflexivity. }
  rewrite E.
  pose proof (Z.div_mod v 256 ltac:(lia)). pose proof (Z.div_mod q1 256 ltac:(lia)).
  pose proof (Z.div_mod q2 256 ltac:(lia)). pose proof (Z.div_mod q3 256 ltac:(lia)).
  fold q1 in H. fold q2 in H0. fold q3 in H1. lia.
Qed.

Lemma be_unsigned_be16 (v : Z) : be_unsigned (be16 v) = v mod 2 ^ 16.
Proof.
  rewrite be16_bytes. unfold be_unsigned. cbn [fold_left].
  set (q1 := v / 256).
  assert (E : v mod 2 ^ 16 = v - 2 ^ 16 * (q1 / 256)).
  { rewrite Z.mod_eq by lia. f_equal. f_equal. unfold q1.
    rewrite !Z.div_div by lia. reflexivity. }
  rewrite E.
  pose proof (Z.div_mod v 256 ltac:(lia)). pose proof (Z.div_mod q1 256 ltac:(lia)).
  fold q1 in H. lia.
Qed.

Lemma be32_length (v : Z) : List.length (be32 v) = 4%nat.
Proof. reflexivity. Qed.

Lemma be16_length (v : Z) : List.length (be16 v) = 2%nat.
Proof. reflexivity. Qed.

Lemma firstn_skipn_middle {A} (pre mid post : list A) :
  firstn (List.length mid) (skipn (List.length pre) (pre ++ mid ++ post)) = mid.
Proof.
  rewrite skipn_app, skipn_all, Nat.sub_diag, skipn_O. cbn [app].
  rewrite firstn_app, firstn_all, Nat.sub_diag, firstn_O, app_nil_r. reflexivity.
Qed.

Lemma readInt32BE_at (pre post : list Z) (v : Z) :
  - 2 ^ 31 <= v < 2 ^ 31 ->
  readInt32BE (pre ++ be32 v ++ post) (Z.of_nat (List.length pre)) = Some v.
Proof.
  intros Hv. unfold readInt32BE.
  rewrite !length_app, be32_length.
  replace ((0 <=? Z.of_nat (List.length pre))
           && (Z.of_nat (List.length pre) + 4 <=? Z.of_nat (List.length pre + (4 + List.length post))))
    with true by (symmetry; apply andb_true_intro; split; apply Z.leb_le; lia).
  rewrite Nat2Z.id.
  change 4%nat with (List.length (be32 v)). rewrite firstn_skipn_middle.
  rewrite be_unsigned_be32. f_equal.
  destruct (Z.leb_spec 0 v).
  - rewrite Z.mod_small by lia. destruct (Z.geb_spec v (2 ^ 31)); lia.
  - replace (v mod 2 ^ 32) with (v + 2 ^ 32).
    + destruct (Z.geb_spec (v + 2 ^ 32) (2 ^ 31)); lia.
    + symmetry. rewrite <- (Z.mod_small (v + 2 ^ 32) (2 ^ 32)) by lia.
      rewrite <- (Z.mod_add v 1 (2 ^ 32)) by lia. rewrite Z.mul_1_l. reflexivity.
Qed.

Lemma readInt16BE_at (pre post : list Z) (v : Z) :
  - 2 ^ 15 <= v < 2 ^ 15 ->
  readInt16BE (pre ++ be16 v ++ post) (Z.of_nat (List.length pre)) = Some v.
Proof.
  intros Hv. unfold readInt16BE.
  rewrite !length_app, be16_length.
  replace ((0 <=? Z.of_nat (List.length pre))
           && (Z.of_nat (List.length pre) + 2 <=? Z.of_nat (List.length pre + (2 + List.length post))))
    with true by (symmetry; apply andb_true_intro; split; apply Z.leb_le; lia).
  rewrite Nat2Z.id.
  change 2%nat with (List.length (be16 v)). rewrite firstn_skipn_middle.
  rewrite be_unsigned_be16. f_equal.
  destruct (Z.leb_spec 0 v).
  - rewrite Z.mod_small by lia. destruct (Z.geb_spec v (2 ^ 15)); lia.
  - replace (v mod 2 ^ 16) with (v + 2 ^ 16).
    + destruct (Z.geb_spec (v + 2 ^ 16) (2 ^ 15)); lia.
    + symmetry. rewrite <- (Z.mod_small (v + 2 ^ 16) (2 ^ 16)) by lia.
      rewrite <- (Z.mod_add v 1 (2 ^ 16)) by lia. rewrite Z.mul_1_l. reflexivity.
Qed.

Lemma string_of_bytes_of_string (s : string) : string_of_bytes (bytes_of_string s) = s.
Proof.
  unfold string_of_bytes, bytes_of_string. rewrite map_map.
  rewrite map_ext with (g := fun c => c).
  - rewrite map_id. apply string_of_list_ascii_of_string.
  - intros c. unfold ascii_of_byte, byte_of_ascii. rewrite Nat2Z.id. apply ascii_nat_embedding.
Qed.

Lemma bytes_of_string_length (s : string) :
  List.length (bytes_of_string s) = String.length s.
Proof.
  unfold bytes_of_string. rewrite length_map.
  induction s; simpl; congruence.
Qed.

End WireFacts.

(** ** Messages the client writes *)

Module MessageFacts.
Import WireFacts.

Lemma framed_message (t L : Z) (body : list Z) :
  L = 4 + Z.of_nat (List.length body) ->
  Z.of_nat (List.length ([t] ++ be32 L ++ body)) <= 2 ^ 31 ->
  readInt32BE ([t] ++ be32 L ++ body) 1 = Some (Z.of_nat (List.length ([t] ++ be32 L ++ body)) - 1).
Proof.
  intros HL Hlen. rewrite !length_app, be32_length in *. cbn [List.length] in *.
  replace (Z.of_nat (1 + (4 + List.length body)) - 1) with L by lia.
  apply (readInt32BE_at [t] body L). lia.
Qed.

Lemma fold_sum_lengths (l : list (list Z)) (acc : Z) :
  fold_left (fun sum buf => sum + Z.of_nat (List.length buf)) l acc
  = acc + Z.of_nat (List.length (List.concat l)).
Proof.
  revert acc. induction l as [|b l IH]; intros acc; cbn [fold_left List.concat].
  - cbn. lia.
  - rewrite IH, length_app. lia.
Qed.

Ltac len_simpl := rewrite ?length_app, ?be32_length, ?be16_length in *; cbn [List.length] in *.

(** Every message the client sends, once built: without a socket the
    send rejects with [ConnectionClosedError] and writes nothing; with
    one, [sendMessage] writes one message whose first four bytes read
    back as its whole length, followed by the data unchanged. *)
Theorem sendMessage_frames (data : list Z) (s : Session) :
  (has_socket s = false ->
     sendMessage data s = Throw (ConnectionClosedError "Connection is closed") s
     /\ sendRawMessage data s = Throw (ConnectionClosedError "Connection is closed") s)
  /\ (has_socket s = true -> Z.of_nat (List.length data) + 4 < 2 ^ 31 ->
      exists m, sendMessage data s = Done tt (add_sent s m)
                /\ readInt32BE m 0 = Some (Z.of_nat (List.length m))
                /\ skipn 4 m = data).
Proof.
  split.
  - intros H. cbv [sendMessage sendRawMessage bind get]. rewrite H. split; reflexivity.
  - intros H Hlen. exists (be32 (Z.of_nat (List.length data) + 4) ++ data). split; [|split].
    + cbv [sendMessage sendRawMessage bind get modify]. rewrite H. reflexivity.
    + rewrite length_app, be32_length.
      replace (Z.of_nat (4 + List.length data)) with (Z.of_nat (List.length data) + 4) by lia.
      apply (readInt32BE_at [] data). lia.
    + reflexivity.
Qed.

(** The type byte and the length field of every message the client
    builds by hand: the simple query ['Q'], the extended-protocol
    messages ['P'], ['B'], ['D'], ['E'], ['S'] and Terminate ['X'].  The
    length field, read back, is the length of the message without its
    type byte. *)
Theorem frontend_messages_framed (sql portalName statementName name : string)
  (params : list (option string)) (type : ascii) (maxRows : Z) :
  let framed m t := hd 0 m = t /\ readInt32BE m 1 = Some (Z.of_nat (List.length m) - 1) in
  (Z.of_nat (List.length (query_message sql)) <= 2 ^ 31 -> framed (query_message sql) 81)
  /\ (Z.of_nat (List.length (parse_message statementName sql)) <= 2 ^ 31 ->
      framed (parse_message statementName sql) 80)
  /\ (Z.of_nat (List.length (bind_message portalName statementName params)) <= 2 ^ 31 ->
      framed (bind_message portalName statementName params) 66)
  /\ (Z.of_nat (List.length (describe_message type name)) <= 2 ^ 31 ->
      framed (describe_message type name) 68)
  /\ (Z.of_nat (List.length (execute_message portalName maxRows)) <= 2 ^ 31 ->
      framed (execute_message portalName maxRows) 69)
  /\ framed sync_message 83
  /\ framed terminate_message 88.
Proof.
  intros framed. unfold framed.
  split; [|split; [|split; [|split; [|split; [|split]]]]].
  - intros H. split; [reflexivity|]. unfold query_message in *.
    apply framed_message; [lia | exact H].
  - intros H. split; [reflexivity|]. unfold parse_message in *.
    apply framed_message; [|exact H]. len_simpl. lia.
  - intros H. split; [reflexivity|]. unfold bind_message in *.
    rewrite fold_sum_lengths in *.
    apply framed_message; [|exact H]. len_simpl. lia.
  - intros H. split; [reflexivity|]. unfold describe_message in *.
    apply framed_message; [|exact H]. len_simpl. lia.
  - intros H. split; [reflexivity|]. unfold execute_message in *.
    apply framed_message; [|exact H]. len_simpl. lia.
  - split; reflexivity.
  - split; reflexivity.
Qed.

(** Integers the client writes with [writeInt32BE] / [writeInt16BE]
    read back with [readInt32BE] / [readInt16BE] at the same offset,
    negative values included. *)
Theorem wire_int_roundtrip (pre post : list Z) (v : Z) :
  - 2 ^ 31 <= v < 2 ^ 31 ->
  readInt32BE (pre ++ be32 v ++ post) (Z.of_nat (List.length pre)) = Some v
  /\ (- 2 ^ 15 <= v < 2 ^ 15 ->
      readInt16BE (pre ++ be16 v ++ post) (Z.of_nat (List.length pre)) = Some v).
Proof.
  intros H. split.
  - apply readInt32BE_at. exact H.
  - intros H'. apply readInt16BE_at. exact H'.
Qed.

Lemma wire_int_roundtrip_witness :
  readInt32BE ([7] ++ be32 (-1) ++ []) 1 = Some (-1)
  /\ (- 2 ^ 15 <= -1 < 2 ^ 15 -> readInt16BE ([7] ++ be16 (-1) ++ []) 1 = Some (-1)).
Proof. exact (wire_int_roundtrip [7] [] (-1) ltac:(lia)). Defined.

End MessageFacts.

(** ** The SQL text [execute] builds *)

Module SqlTextFacts.
Import SqlHelpers.

(** [execute]'s replacement is positional: the [k]-th ['?'] of the text
    (counting from [i]) becomes the literal of the [k]-th parameter, the
    text around it is copied, and a text without ['?'] is left as it
    is.  The literals inserted are not scanned again. *)
Theorem substitute_positional (l1 l2 : list ascii) (ps : list js_value) (i : nat) :
  substitute (l1 ++ "?"%char :: l2) ps i
  = (substitute l1 ps i ++ sql_literal (nth_error ps (i + placeholders l1))
     ++ substitute l2 ps (S (i + placeholders l1)))%string
  /\ (placeholders l1 = O -> substitute l1 ps i = string_of_list_ascii l1).
Proof.
  split.
  - rewrite substitute_app. reflexivity.
  - revert i. induction l1 as [|c l1 IH]; intros i H; [reflexivity|].
    unfold placeholders in H. cbn [filter] in H. cbn [substitute string_of_list_ascii].
    destruct (Ascii.eqb c "?"%char); [discriminate H|].
    rewrite IH by exact H. reflexivity.
Qed.

Lemma double_quotes_inj (l1 l2 : list ascii) :
  double_quotes l1 = double_quotes l2 -> l1 = l2.
Proof.
  revert l2. induction l1 as [|c1 l1 IH]; intros [|c2 l2] H; cbn [double_quotes] in H.
  - reflexivity.
  - destruct (Ascii.eqb c2 "'"%char); discriminate H.
  - destruct (Ascii.eqb c1 "'"%char); discriminate H.
  - destruct (Ascii.eqb c1 "'"%char) eqn:E1, (Ascii.eqb c2 "'"%char) eqn:E2;
      injection H; intros; subst.
    + f_equal. now apply IH.
    + congruence.
    + congruence.
    + f_equal. now apply IH.
Qed.

Lemma string_app_char_inj (a b : string) (c : ascii) :
  (a ++ String c EmptyString)%string = (b ++ String c EmptyString)%string -> a = b.
Proof.
  intros H. apply (f_equal list_ascii_of_string) in H. rewrite !list_ascii_app in H.
  apply app_inj_tail in H. destruct H as [H _].
  rewrite <- (string_of_list_ascii_of_string a), <- (string_of_list_ascii_of_string b).
  now rewrite H.
Qed.

(** String literals are quoted without loss: two different strings never
    give the same literal. *)
Theorem quote_injective (s1 s2 : string) : quote s1 = quote s2 -> s1 = s2.
Proof.
  unfold quote. intros H. cbn [String.append] in H. injection H as H.
  apply string_app_char_inj in H.
  apply (f_equal list_ascii_of_string) in H. rewrite !list_ascii_of_string_of_list_ascii in H.
  apply double_quotes_inj in H.
  rewrite <- (string_of_list_ascii_of_string s1), <- (string_of_list_ascii_of_string s2).
  now rewrite H.
Qed.

Lemma quote_injective_witness : "it's"%string = "it's"%string.
Proof. apply (quote_injective "it's" "it's"). reflexivity. Defined.

End SqlTextFacts.

(** ** Reading query responses *)

Module ResponseFacts.
Import ReadFacts WireFacts.

Lemma set_io_set_io (s : Session) b e b' e' : set_io (set_io s b e) b' e' = set_io s b' e'.
Proof. destruct s; reflexivity. Qed.

Lemma set_io_events (s : Session) b e : events (set_io s b e) = e.
Proof. reflexivity. Qed.

Lemma set_io_options (s : Session) b e : options (set_io s b e) = options s.
Proof. reflexivity. Qed.

Lemma readBytes_app (s : Session) (l rest : list Z) (n : Z) :
  buffer s = l ++ rest -> n = Z.of_nat (List.length l) ->
  readBytes n s = Done l (set_io s rest (events s)).
Proof.
  intros Hb ->. rewrite readBytes_ready by (rewrite Hb, length_app; lia).
  rewrite Hb, Nat2Z.id, firstn_app, firstn_all, Nat.sub_diag, firstn_O, app_nil_r.
  rewrite skipn_app, skipn_all, Nat.sub_diag, skipn_O. reflexivity.
Qed.

(** The four reads that open every round of the response loops. *)
Lemma frame_read {A} (k : list Z -> list Z -> M A) (s : Session) (t : Z) (data rest : list Z) :
  has_socket s = true -> buffer s = frame t data ++ rest ->
  Z.of_nat (List.length data) < 2 ^ 31 ->
  bind (readBytes 1) (fun mt => bind (readBytes 4) (fun _ =>
    bind readInt32 (fun length => bind (readBytes length) (k mt)))) s
  = k [t] data (set_io s rest (events s)).
Proof.
  intros Hs Hb Hl.
  cbv [bind readInt32].
  rewrite (readBytes_app s [t] ([0;0;0;0] ++ be32 (Z.of_nat (List.length data)) ++ data ++ rest))
    by (try rewrite Hb; reflexivity).
  rewrite (readBytes_app _ [0;0;0;0] (be32 (Z.of_nat (List.length data)) ++ data ++ rest))
    by reflexivity.
  rewrite (readBytes_app _ (be32 (Z.of_nat (List.length data))) (data ++ rest)) by reflexivity.
  pose proof (readInt32BE_at [] [] (Z.of_nat (List.length data)) ltac:(lia)) as R.
  rewrite app_nil_l, app_nil_r in R. cbn [List.length Z.of_nat] in R. rewrite R.
  cbv [ret]. rewrite (readBytes_app _ data rest) by reflexivity.
  rewrite !set_io_set_io. reflexivity.
Qed.

(** [buf.toString('utf8', start, end)] over exactly the bytes of a
    text gives that text back. *)
Lemma js_toString_middle (pre post : list Z) (m : string) :
  js_toString (pre ++ bytes_of_string m ++ post) (Z.of_nat (List.length pre))
              (Z.of_nat (List.length pre) + Z.of_nat (String.length m)) = m.
Proof.
  unfold js_toString. rewrite !length_app, bytes_of_string_length.
  replace (if Z.of_nat (List.length pre) <=? 0 then 0 else Z.of_nat (List.length pre))
    with (Z.of_nat (List.length pre)) by (destruct (Z.leb_spec (Z.of_nat (List.length pre)) 0); lia).
  destruct m as [|c m'].
  - cbn [String.length]. rewrite Z.add_0_r.
    destruct (_ <=? _); [reflexivity|].
    destruct (Z.ltb_spec (Z.of_nat (List.length pre + (0 + List.length post)))
                         (Z.of_nat (List.length pre))); [lia|].
    rewrite Z.leb_refl. reflexivity.
  - cbn [String.length] in *.
    destruct (Z.leb_spec (Z.of_nat (List.length pre + (S (String.length m') + List.length post)))
                         (Z.of_nat (List.length pre))); [lia|].
    destruct (Z.ltb_spec (Z.of_nat (List.length pre + (S (String.length m') + List.length post)))
                         (Z.of_nat (List.length pre) + Z.of_nat (S (String.length m')))); [lia|].
    destruct (Z.leb_spec (Z.of_nat (List.length pre) + Z.of_nat (S (String.length m')))
                         (Z.of_nat (List.length pre))); [lia|].
    rewrite Nat2Z.id, skipn_app, skipn_all, Nat.sub_diag, skipn_O, app_nil_l.
    replace (Z.to_nat (Z.of_nat (List.length pre) + Z.of_nat (S (String.length m'))
                       - Z.of_nat (List.length pre)))
      with (List.length (bytes_of_string (String c m'))) by (rewrite bytes_of_string_length; cbn; lia).
    rewrite firstn_app, firstn_all, Nat.sub_diag, firstn_O, app_nil_r.
    apply string_of_bytes_of_string.
Qed.

(** [parseErrorResponse]: a payload shorter than four bytes gives
    "Unknown error"; otherwise the four-byte length is followed by the
    text, which comes back exactly, whatever trails it. *)
Theorem parseErrorResponse_text (data : list Z) (m : string) (extra : list Z) :
  (Z.of_nat (List.length data) < 4 -> parseErrorResponse data = "Unknown error"%string)
  /\ (Z.of_nat (String.length m) < 2 ^ 31 ->
      parseErrorResponse (be32 (Z.of_nat (String.length m)) ++ bytes_of_string m ++ extra) = m).
Proof.
  split.
  - intros H. unfold parseErrorResponse. rewrite (proj2 (Z.ltb_lt _ _) H). reflexivity.
  - intros H. unfold parseErrorResponse.
    rewrite length_app, be32_length.
    rewrite (proj2 (Z.ltb_ge _ _)) by lia.
    pose proof (readInt32BE_at [] (bytes_of_string m ++ extra) (Z.of_nat (String.length m))
                  ltac:(lia)) as R.
    rewrite app_nil_l in R. cbn [List.length Z.of_nat] in R. rewrite R.
    exact (js_toString_middle (be32 (Z.of_nat (String.length m))) extra m).
Qed.

(** One round of [readQueryResponse], by the type of the message in
    the buffer: ReadyForQuery records its first byte as the transaction
    status and resolves with the result so far; ErrorResponse rejects
    with a [DatabaseError] carrying the server's text; a RowDescription
    sets the fields; a DataRow that comes before any RowDescription is
    dropped; CommandComplete sets the command and row count; any other
    type (EmptyQuery, Notice, ParameterStatus, ...) is skipped. *)
Theorem readQueryResponse_frames (f : nat) (res : QueryResult)
  (flds : option (list FieldDescription)) (s : Session) (t : Z) (data rest : list Z) :
  has_socket s = true -> buffer s = frame t data ++ rest ->
  Z.of_nat (List.length data) < 2 ^ 31 ->
  let s1 := set_io s rest (events s) in
  (t = 90 -> readQueryResponse (S f) res flds s = Done res (set_txstatus s1 (nth_error data 0)))
  /\ (t = 69 -> readQueryResponse (S f) res flds s = Throw (DatabaseError (parseErrorResponse data)) s1)
  /\ (t = 84 -> forall fs, parseRowDescription data = Parsed fs ->
        readQueryResponse (S f) res flds s
        = readQueryResponse f (mkResult (rows res) (rowCount res) (command res) (Some fs)) (Some fs) s1)
  /\ (t = 68 -> flds = None -> readQueryResponse (S f) res flds s = readQueryResponse f res None s1)
  /\ (t = 67 -> readQueryResponse (S f) res flds s
               = readQueryResponse f (on_command_complete res data) flds s1)
  /\ (t <> 84 -> t <> 68 -> t <> 67 -> t <> 90 -> t <> 69 ->
      readQueryResponse (S f) res flds s = readQueryResponse f res flds s1).
Proof.
  intros Hs Hb Hl s1.
  cbn [readQueryResponse].
  rewrite (frame_read _ s t data rest Hs Hb Hl). fold s1.
  cbv [bind get modify ret throw MESSAGE_TYPE_ROW_DESCRIPTION MESSAGE_TYPE_DATA_ROW
       MESSAGE_TYPE_COMMAND_COMPLETE MESSAGE_TYPE_READY_FOR_QUERY MESSAGE_TYPE_ERROR_RESPONSE].
  rewrite byte_at_head.
  split; [|split; [|split; [|split; [|split]]]].
  - intros ->. reflexivity.
  - intros ->. reflexivity.
  - intros -> fs' Hfs. rewrite Hfs. reflexivity.
  - intros -> ->. reflexivity.
  - intros ->. reflexivity.
  - intros H84 H68 H67 H90 H69.
    rewrite (proj2 (Z.eqb_neq t _) H84), (proj2 (Z.eqb_neq t _) H68),
            (proj2 (Z.eqb_neq t _) H67), (proj2 (Z.eqb_neq t _) H90),
            (proj2 (Z.eqb_neq t _) H69).
    reflexivity.
Qed.

Lemma readQueryResponse_frames_witness :
  has_socket session_idle = true
  /\ readQueryResponse 1 (mkResult [] (js_number_of_Z 0) None None) None
       (set_io session_idle (frame 90 [73]) [])
     = Done (mkResult [] (js_number_of_Z 0) None None)
            (set_txstatus (set_io (set_io session_idle (frame 90 [73]) []) [] []) (Some 73)).
Proof.
  split; [reflexivity|].
  exact (proj1 (readQueryResponse_frames 0 (mkResult [] (js_number_of_Z 0) None None) None
                  (set_io session_idle (frame 90 [73]) []) 90 [73] []
                  eq_refl (eq_sym (app_nil_r _)) ltac:(cbn; lia)) eq_refl).
Defined.

Lemma readExtended_eq_simple (fuel : nat) (res : QueryResult)
  (flds : option (list FieldDescription)) (s : Session) :
  readExtendedQueryResponse fuel res flds s = readQueryResponse fuel res flds s.
Proof.
  revert res flds s. induction fuel as [|f IH]; intros res flds s; [reflexivity|].
  cbn [readExtendedQueryResponse readQueryResponse].
  cbv [bind get modify ret throw MESSAGE_TYPE_ROW_DESCRIPTION MESSAGE_TYPE_DATA_ROW
       MESSAGE_TYPE_COMMAND_COMPLETE MESSAGE_TYPE_READY_FOR_QUERY MESSAGE_TYPE_ERROR_RESPONSE
       MESSAGE_TYPE_PARSE_COMPLETE MESSAGE_TYPE_BIND_COMPLETE MESSAGE_TYPE_NO_DATA].
  destruct (readBytes 1 s) as [mt s1| | | |]; try reflexivity.
  destruct (readBytes 4 s1) as [u s2| | | |]; try reflexivity.
  destruct (readInt32 s2) as [len s3| | | |]; try reflexivity.
  destruct (readBytes len s3) as [data s4| | | |]; try reflexivity.
  set (t := byte_at mt 0).
  destruct (Z.eqb_spec t 49) as [E|N49]; [rewrite E; cbn [Z.eqb Pos.eqb]; apply IH|].
  destruct (Z.eqb_spec t 50) as [E|N50]; [rewrite E; cbn [Z.eqb Pos.eqb]; apply IH|].
  destruct (Z.eqb_spec t 84) as [E|N84].
  { destruct (parseRowDescription data); [apply IH | reflexivity | reflexivity]. }
  destruct (Z.eqb_spec t 110) as [E|N110]; [rewrite E; cbn [Z.eqb Pos.eqb]; apply IH|].
  destruct (Z.eqb_spec t 68) as [E|N68].
  { destruct flds as [fs|]; [|apply IH].
    destruct (parseDataRow (rowMode_array (options s4)) data fs); [apply IH | reflexivity | reflexivity]. }
  destruct (Z.eqb_spec t 67) as [E|N67]; [apply IH|].
  destruct (Z.eqb_spec t 90) as [E|N90]; [reflexivity|].
  destruct (Z.eqb_spec t 69) as [E|N69]; [reflexivity|].
  apply IH.
Qed.

(** [readExtendedQueryResponse] behaves as [readQueryResponse] on every
    input: the types only it names (ParseComplete, BindComplete, NoData)
    are skipped, which is what the other loop does with a type it does
    not know. *)
Theorem readExtended_same_as_simple (fuel : nat) (res : QueryResult)
  (flds : option (list FieldDescription)) (s : Session) :
  readExtendedQueryResponse fuel res flds s = readQueryResponse fuel res flds s.
Proof. apply readExtended_eq_simple. Qed.



Lemma data_rows_loop (k : nat) (fs : list FieldDescription) (rowdata : list (list Z))
  (rs : list row) (tl : list Z) (am : bool) (res : QueryResult) (s : Session) :
  has_socket s = true -> buffer s = List.concat (List.map (frame 68) rowdata) ++ tl ->
  rowMode_array (options s) = am ->
  Forall2 (fun d r => parseDataRow am d fs = Parsed r) rowdata rs ->
  Forall (fun d => Z.of_nat (List.length d) < 2 ^ 31) rowdata ->
  readQueryResponse (List.length rowdata + k) res (Some fs) s
  = readQueryResponse k (mkResult (rows res ++ rs) (rowCount res) (command res) (fields res))
                      (Some fs) (set_io s tl (events s)).
Proof.
  intros Hs Hb Ham HF. revert res s Hs Hb Ham. induction HF as [|d r ds rs' Hr HF IH];
    intros res s Hs Hb Ham Hl.
  - cbn [List.length Nat.add]. rewrite app_nil_r. destruct res, s; cbn in *. subst. reflexivity.
  - cbn [List.length Nat.add readQueryResponse].
    apply Forall_cons_iff in Hl as [Hd Hds].
    cbn [List.map List.concat] in Hb. rewrite <- app_assoc in Hb.
    rewrite (frame_read _ s 68 d _ Hs Hb Hd).
    cbv [bind get modify ret throw MESSAGE_TYPE_ROW_DESCRIPTION MESSAGE_TYPE_DATA_ROW
       MESSAGE_TYPE_COMMAND_COMPLETE MESSAGE_TYPE_READY_FOR_QUERY MESSAGE_TYPE_ERROR_RESPONSE].
    rewrite byte_at_head. cbn [Z.eqb Pos.eqb]. rewrite set_io_options, Ham, Hr.
    rewrite IH; [| exact Hs | reflexivity | rewrite set_io_options; exact Ham | exact Hds].
    cbn [rows rowCount command fields]. rewrite <- app_assoc, set_io_set_io. reflexivity.
Qed.

Lemma command_text (cmd : string) :
  js_toString (bytes_of_string cmd ++ [0]) 0
              (Z.of_nat (List.length (bytes_of_string cmd ++ [0])) - 1) = cmd.
Proof.
  pose proof (js_toString_middle [] [0] cmd) as H. cbn [List.length Z.of_nat app] in H.
  rewrite length_app, bytes_of_string_length. cbn [List.length].
  replace (Z.of_nat (String.length cmd + 1) - 1) with (0 + Z.of_nat (String.length cmd)) by lia.
  exact H.
Qed.

(** A complete answer to a simple query: a RowDescription, one DataRow
    per row, CommandComplete and ReadyForQuery.  [executeSimple] writes
    one Query message and resolves with the parsed rows in order, the
    command text, the fields, and as row count the Number [parseInt]
    makes of the digits that end the command text (the double nearest
    the integer they denote) or, when it ends in no digits, the number
    of rows; the
    first byte of ReadyForQuery becomes the transaction status and what
    follows is left in the buffer. *)
Theorem executeSimple_result (fuel : nat) (sql : string) (s : Session)
  (desc : list Z) (fs : list FieldDescription) (rowdata : list (list Z)) (rs : list row)
  (cmd : string) (st : Z) (rest : list Z) :
  has_socket s = true ->
  buffer s = frame 84 desc ++ List.concat (List.map (frame 68) rowdata)
             ++ frame 67 (bytes_of_string cmd ++ [0]) ++ frame 90 [st] ++ rest ->
  parseRowDescription desc = Parsed fs ->
  Forall2 (fun d r => parseDataRow (rowMode_array (options s)) d fs = Parsed r) rowdata rs ->
  Forall (fun d => Z.of_nat (List.length d) < 2 ^ 31) (desc :: rowdata) ->
  Z.of_nat (String.length cmd) + 1 < 2 ^ 31 ->
  (List.length rowdata + 3 <= fuel)%nat ->
  executeSimple fuel sql s
  = Done (mkResult rs (match trailing_number cmd with
                       | Some n => js_number_of_Z n
                       | None => js_number_of_Z (Z.of_nat (List.length rs))
                       end) (Some cmd) (Some fs))
         (set_txstatus (set_io (add_sent s (query_message sql)) rest (events s)) (Some st)).
Proof.
  intros Hs Hb Hfs HF Hl Hc Hfuel.
  apply Forall_cons_iff in Hl as [Hd Hds].
  replace fuel with (S (List.length rowdata + S (S (fuel - List.length rowdata - 3)))) by lia.
  set (j := (fuel - List.length rowdata - 3)%nat).
  remember (S j) as j1 eqn:Ej.
  unfold executeSimple. cbv [sendRawMessage bind get modify ret throw]. rewrite Hs.
  set (s0 := add_sent s (query_message sql)).
  cbn [readQueryResponse].
  rewrite (frame_read _ s0 84 desc _ Hs Hb Hd).
  cbv [bind get modify ret throw MESSAGE_TYPE_ROW_DESCRIPTION MESSAGE_TYPE_DATA_ROW
       MESSAGE_TYPE_COMMAND_COMPLETE MESSAGE_TYPE_READY_FOR_QUERY MESSAGE_TYPE_ERROR_RESPONSE].
  rewrite byte_at_head. cbn [Z.eqb Pos.eqb]. rewrite Hfs.
  rewrite (data_rows_loop (S j1) fs rowdata rs _ (rowMode_array (options s)) _
             (set_io s0 _ (events s0)) Hs eq_refl eq_refl HF Hds).
  cbn [readQueryResponse rows rowCount command fields app].
  rewrite frame_read with (t := 67) (data := bytes_of_string cmd ++ [0]) (rest := frame 90 [st] ++ rest);
    [| exact Hs | reflexivity | rewrite length_app, bytes_of_string_length; cbn [List.length]; lia].
  cbv [bind get modify ret throw MESSAGE_TYPE_ROW_DESCRIPTION MESSAGE_TYPE_DATA_ROW
       MESSAGE_TYPE_COMMAND_COMPLETE MESSAGE_TYPE_READY_FOR_QUERY MESSAGE_TYPE_ERROR_RESPONSE].
  rewrite byte_at_head. cbn [Z.eqb Pos.eqb]. subst j1. cbn [readQueryResponse].
  rewrite frame_read with (t := 90) (data := [st]) (rest := rest);
    [| exact Hs | reflexivity | cbn; lia].
  cbv [bind get modify ret throw MESSAGE_TYPE_ROW_DESCRIPTION MESSAGE_TYPE_DATA_ROW
       MESSAGE_TYPE_COMMAND_COMPLETE MESSAGE_TYPE_READY_FOR_QUERY MESSAGE_TYPE_ERROR_RESPONSE].
  rewrite byte_at_head. cbn [Z.eqb Pos.eqb nth_error].
  unfold on_command_complete. rewrite command_text. cbn [rows rowCount command fields].
  rewrite !set_io_set_io, !set_io_events. reflexivity.
Qed.

Lemma executeSimple_result_witness :
  exists fs rs,
  executeSimple 4 "SELECT 1 AS V, 2 AS v" (set_io session_idle select_exchange [])
  = Done (mkResult rs (js_number_of_Z 1) (Some "SELECT 1"%string) (Some fs))
         (set_txstatus (set_io (add_sent (set_io session_idle select_exchange [])
                                  (query_message "SELECT 1 AS V, 2 AS v")) [] [])
                       (Some 73)).
Proof.
  eexists _, _.
  refine (executeSimple_result 4 "SELECT 1 AS V, 2 AS v" (set_io session_idle select_exchange [])
            rowdesc_Vv _ [row_12] _ "SELECT 1" 73 [] eq_refl eq_refl _ _ _ _ _).
  - vm_compute. reflexivity.
  - constructor; [vm_compute; reflexivity | constructor].
  - repeat constructor; vm_compute; reflexivity.
  - vm_compute. reflexivity.
  - cbn. lia.
Defined.

End ResponseFacts.

Module RowDescriptionFacts.
Import WireFacts ResponseFacts.

Lemma index_of_zero_from_nonzero (m post : list Z) (i : Z) :
  ~ In 0 m -> index_of_zero_from (m ++ 0 :: post) i = i + Z.of_nat (List.length m).
Proof.
  revert i. induction m as [|b m IH]; intros i Hm; cbn [app index_of_zero_from].
  - cbn. lia.
  - destruct (Z.eqb_spec b 0) as [->|Hb]; [exfalso; apply Hm; left; reflexivity|].
    rewrite IH by (intros H; apply Hm; right; exact H). cbn [List.length]. lia.
Qed.

Lemma indexOf0_at (pre m post : list Z) :
  ~ In 0 m ->
  indexOf0 (pre ++ m ++ 0 :: post) (Z.of_nat (List.length pre))
  = Z.of_nat (List.length pre) + Z.of_nat (List.length m).
Proof.
  intros Hm. unfold indexOf0.
  rewrite (proj2 (Z.ltb_ge _ _)) by lia.
  rewrite (proj2 (Z.leb_gt _ _)) by (rewrite !length_app; cbn [List.length]; lia).
  rewrite Nat2Z.id, skipn_app, skipn_all, Nat.sub_diag, skipn_O, app_nil_l.
  apply index_of_zero_from_nonzero, Hm.
Qed.

Lemma readUInt8_at (pre post : list Z) (b : Z) :
  readUInt8 (pre ++ b :: post) (Z.of_nat (List.length pre)) = Some b.
Proof.
  unfold readUInt8.
  rewrite (proj2 (Z.leb_le 0 _)) by lia.
  rewrite (proj2 (Z.leb_le _ _)) by (rewrite length_app; cbn [List.length]; lia).
  cbn [andb]. rewrite Nat2Z.id, app_nth2, Nat.sub_diag by lia. reflexivity.
Qed.

Lemma toLowerCase_ascii (nm : string) :
  Forall (fun b => b < 128) (bytes_of_string nm) -> toLowerCase nm = Some (ascii_lower nm).
Proof.
  intros H. unfold toLowerCase. unfold bytes_of_string in H. rewrite Forall_map in H.
  replace (forallb _ _) with true; [reflexivity|]. symmetry. apply forallb_forall.
  intros c Hc. apply (proj1 (Forall_forall _ _) H) in Hc. unfold byte_of_ascii in Hc.
  apply Nat.ltb_lt. lia.
Qed.

Lemma parse_fields_bytes (fs : list FieldDescription) (pre post : list Z) (i : Z) :
  Forall field_readable fs ->
  parse_fields (pre ++ List.concat (map field_bytes fs) ++ post) (List.length fs) i
               (Z.of_nat (List.length pre))
  = Parsed (described fs i).
Proof.
  revert pre i. induction fs as [|f fs IH]; intros pre i Hok; [reflexivity|].
  apply Forall_cons_iff in Hok as [[Hnm [Hasc [Ho [Hsz [Hmd Hfc]]]]] Hok].
  destruct f as [nm to col oid sz md fc]. cbn [name typeOid typeSize typeMod formatCode] in *.
  cbn [List.length parse_fields described map List.concat].
  set (R := List.concat (map field_bytes fs) ++ post).
  set (D := pre ++ (field_bytes (mkField nm to col oid sz md fc) ++ List.concat (map field_bytes fs)) ++ post).
  set (L := Z.of_nat (List.length pre)).
  set (n := Z.of_nat (String.length nm)).
  assert (HD : D = pre ++ bytes_of_string nm ++ 0 :: be32 oid ++ be16 sz ++ be32 md ++ fc :: R)
    by (subst D R; unfold field_bytes; cbn [name typeOid typeSize typeMod formatCode];
        rewrite <- !app_assoc; reflexivity).
  assert (H1 : indexOf0 D L = L + n).
  { rewrite HD. subst L n. rewrite indexOf0_at by exact Hnm. rewrite bytes_of_string_length. reflexivity. }
  assert (H2 : js_toString D L (L + n) = nm).
  { rewrite HD. apply js_toString_middle. }
  assert (H3 : readInt32BE D (L + n + 1) = Some oid).
  { replace D with ((pre ++ bytes_of_string nm ++ [0]) ++ be32 oid ++ be16 sz ++ be32 md ++ fc :: R)
      by (rewrite HD, <- !app_assoc; reflexivity).
    replace (L + n + 1) with (Z.of_nat (List.length (pre ++ bytes_of_string nm ++ [0])))
      by (subst L n; rewrite !length_app, bytes_of_string_length; cbn [List.length]; lia).
    apply readInt32BE_at, Ho. }
  assert (H4 : readInt16BE D (L + n + 1 + 4) = Some sz).
  { replace D with ((pre ++ bytes_of_string nm ++ [0] ++ be32 oid) ++ be16 sz ++ be32 md ++ fc :: R)
      by (rewrite HD, <- !app_assoc; reflexivity).
    replace (L + n + 1 + 4) with (Z.of_nat (List.length (pre ++ bytes_of_string nm ++ [0] ++ be32 oid)))
      by (subst L n; rewrite !length_app, bytes_of_string_length, be32_length; cbn [List.length]; lia).
    apply readInt16BE_at, Hsz. }
  assert (H5 : readInt32BE D (L + n + 1 + 6) = Some md).
  { replace D with ((pre ++ bytes_of_string nm ++ [0] ++ be32 oid ++ be16 sz) ++ be32 md ++ fc :: R)
      by (rewrite HD, <- !app_assoc; reflexivity).
    replace (L + n + 1 + 6)
      with (Z.of_nat (List.length (pre ++ bytes_of_string nm ++ [0] ++ be32 oid ++ be16 sz)))
      by (subst L n; rewrite !length_app, bytes_of_string_length, be32_length, be16_length;
          cbn [List.length]; lia).
    apply readInt32BE_at, Hmd. }
  assert (H6 : readUInt8 D (L + n + 1 + 10) = Some fc).
  { replace D with ((pre ++ bytes_of_string nm ++ [0] ++ be32 oid ++ be16 sz ++ be32 md) ++ fc :: R)
      by (rewrite HD, <- !app_assoc; reflexivity).
    replace (L + n + 1 + 10)
      with (Z.of_nat (List.length (pre ++ bytes_of_string nm ++ [0] ++ be32 oid ++ be16 sz ++ be32 md)))
      by (subst L n; rewrite !length_app, bytes_of_string_length, !be32_length, be16_length;
          cbn [List.length]; lia).
    apply readUInt8_at. }
  assert (H7 : parse_fields D (List.length fs) (i + 1) (L + n + 1 + 11) = Parsed (described fs (i + 1))).
  { replace D with ((pre ++ field_bytes (mkField nm to col oid sz md fc))
                    ++ List.concat (map field_bytes fs) ++ post)
      by (subst D; rewrite <- !app_assoc; reflexivity).
    replace (L + n + 1 + 11)
      with (Z.of_nat (List.length (pre ++ field_bytes (mkField nm to col oid sz md fc))))
      by (subst L n; unfold field_bytes; cbn [name typeOid typeSize typeMod formatCode];
          rewrite !length_app, bytes_of_string_length, !be32_length, be16_length;
          cbn [List.length]; lia).
    apply IH, Hok. }
  rewrite H1, H2, H3, H4, H5, H6, H7, (toLowerCase_ascii nm Hasc). reflexivity.
Qed.

(** [parseRowDescription] reads back a row description written field
    by field: each field comes back with its name in lower case, table
    oid 0, its position as column number, and its type oid, size,
    modifier and format, provided every name is ASCII text without a NUL
    byte and each value fits its width.  The field count is read as a signed 16-bit number:
    a description of 32768 fields or more is read as one of none. *)
Theorem parseRowDescription_roundtrip (fs : list FieldDescription) :
  (Forall field_readable fs -> Z.of_nat (List.length fs) < 2 ^ 15 ->
   parseRowDescription (row_description_bytes fs) = Parsed (described fs 0))
  /\ (2 ^ 15 <= Z.of_nat (List.length fs) < 2 ^ 16 ->
      parseRowDescription (row_description_bytes fs) = Parsed []).
Proof.
  split.
  - intros Hok Hn. unfold parseRowDescription, row_description_bytes.
    pose proof (readInt16BE_at [] (List.concat (map field_bytes fs)) (Z.of_nat (List.length fs))
                  ltac:(lia)) as R.
    rewrite app_nil_l in R. cbn [List.length Z.of_nat] in R. rewrite R, Nat2Z.id.
    pose proof (parse_fields_bytes fs (be16 (Z.of_nat (List.length fs))) [] 0 Hok) as P.
    rewrite app_nil_r, be16_length in P. exact P.
  - intros Hn. unfold parseRowDescription, row_description_bytes, readInt16BE.
    rewrite length_app, be16_length.
    rewrite (proj2 (Z.leb_le 0 0)), (proj2 (Z.leb_le (0 + 2) _)) by lia. cbn [andb].
    change (skipn (Z.to_nat 0) ?l) with l.
    rewrite firstn_app, be16_length. change (firstn 2 (be16 ?v)) with (be16 v).
    rewrite Nat.sub_diag, firstn_O, app_nil_r, be_unsigned_be16, Z.mod_small by lia.
    rewrite (proj2 (Z.geb_le _ _)) by lia.
    replace (Z.to_nat (Z.of_nat (List.length fs) - 2 ^ 16)) with 0%nat by lia.
    reflexivity.
Qed.

End RowDescriptionFacts.

Module CloseFacts.

Lemma keeps_bind {A B} (m : M A) (k : A -> M B) :
  keeps_closed m -> (forall a, keeps_closed (k a)) -> keeps_closed (bind m k).
Proof.
  intros Hm Hk s. unfold bind. specialize (Hm s).
  destruct (m s) as [a s1|e s1|s1| |]; try exact Hm.
  specialize (Hk a s1). destruct (k a s1); try exact I;
    destruct Hm as [Hm1 Hm2], Hk as [Hk1 Hk2]; split; [congruence|auto|congruence|auto|congruence|auto].
Qed.

Lemma keeps_ret {A} (a : A) : keeps_closed (ret a).
Proof. intros s. split; auto. Qed.

Lemma keeps_throw {A} e : keeps_closed (@throw A e).
Proof. intros s. split; auto. Qed.

Lemma keeps_nofuel {A} : keeps_closed (@nofuel A).
Proof. intros s. exact I. Qed.

Lemma keeps_get : keeps_closed get.
Proof. intros s. split; auto. Qed.

Lemma keeps_modify (f : Session -> Session) :
  (forall s, closed (f s) = closed s /\ (has_socket s = true -> has_socket (f s) = true)) ->
  keeps_closed (modify f).
Proof. intros H s. apply H. Qed.

Lemma keeps_readBytes n : keeps_closed (readBytes n).
Proof.
  intros s. unfold readBytes.
  destruct (_ && _); [split; auto|].
  destruct (readBytes_ev _ _ _); split; auto.
Qed.

Lemma keeps_sendRawMessage m : keeps_closed (sendRawMessage m).
Proof. intros s. cbv [sendRawMessage bind get modify throw]. destruct (has_socket s) eqn:H; cbn; split; auto; discriminate. Qed.

Create HintDb keeps.
#[local] Hint Resolve keeps_ret keeps_throw keeps_nofuel keeps_get keeps_readBytes
  keeps_sendRawMessage : keeps.

Ltac keeps_tac :=
  repeat match goal with
  | |- forall _, _ => intro
  | |- keeps_closed (bind _ _) => apply keeps_bind
  | |- keeps_closed (modify _) => apply keeps_modify; intro; cbn; split; auto
  | |- keeps_closed (if ?b then _ else _) => destruct b
  | |- keeps_closed (match ?x with _ => _ end) => destruct x
  | |- keeps_closed _ => solve [auto with keeps]
  | |- keeps_closed ?f => progress (unfold f)
  end.

Lemma keeps_readInt32 : keeps_closed readInt32.
Proof. unfold readInt32. keeps_tac. Qed.
#[local] Hint Resolve keeps_readInt32 : keeps.

Lemma keeps_sendMessage d : keeps_closed (sendMessage d).
Proof. unfold sendMessage. auto with keeps. Qed.
#[local] Hint Resolve keeps_sendMessage : keeps.

Lemma keeps_read_cstring fuel acc : keeps_closed (read_cstring fuel acc).
Proof. revert acc; induction fuel; intros acc; cbn [read_cstring]; keeps_tac. Qed.
#[local] Hint Resolve keeps_read_cstring : keeps.

Lemma keeps_negotiate_loop fuel v : keeps_closed (negotiate_loop fuel v).
Proof. revert v; induction fuel; intros v; cbn [negotiate_loop]; keeps_tac. Qed.
#[local] Hint Resolve keeps_negotiate_loop : keeps.

Lemma keeps_negotiateHandshake fuel : keeps_closed (negotiateHandshake fuel).
Proof. unfold negotiateHandshake. auto with keeps. Qed.
#[local] Hint Resolve keeps_negotiateHandshake : keeps.

Lemma keeps_upgradeToTLS env fuel : keeps_closed (upgradeToTLS env fuel).
Proof. unfold upgradeToTLS. keeps_tac. Qed.
#[local] Hint Resolve keeps_upgradeToTLS : keeps.

Lemma keeps_expect_ack m : keeps_closed (expect_ack m).
Proof. unfold expect_ack. keeps_tac. Qed.
#[local] Hint Resolve keeps_expect_ack : keeps.

Lemma keeps_sendHandshakeField o v : keeps_closed (sendHandshakeField o v).
Proof. unfold sendHandshakeField. auto with keeps. Qed.
#[local] Hint Resolve keeps_sendHandshakeField : keeps.

Lemma keeps_negotiate_security env fuel l : keeps_closed (negotiate_security env fuel l).
Proof. unfold negotiate_security. keeps_tac. Qed.
#[local] Hint Resolve keeps_negotiate_security : keeps.

Lemma keeps_sendHandshakeInfo env fuel : keeps_closed (sendHandshakeInfo env fuel).
Proof. unfold sendHandshakeInfo. keeps_tac. Qed.
#[local] Hint Resolve keeps_sendHandshakeInfo : keeps.

Lemma keeps_waitForAuthOk : keeps_closed waitForAuthOk.
Proof. unfold waitForAuthOk. keeps_tac. Qed.
#[local] Hint Resolve keeps_waitForAuthOk : keeps.

Lemma keeps_authenticate env : keeps_closed (authenticate env).
Proof. unfold authenticate. keeps_tac. Qed.
#[local] Hint Resolve keeps_authenticate : keeps.

Lemma keeps_waitForReady fuel : keeps_closed (waitForReady fuel).
Proof. induction fuel; cbn [waitForReady]; keeps_tac. Qed.
#[local] Hint Resolve keeps_waitForReady : keeps.

Lemma keeps_performHandshake env fuel : keeps_closed (performHandshake env fuel).
Proof. unfold performHandshake. keeps_tac. Qed.

(** A connection that was closed stays closed: [connect()] tests only
    for a socket, so after [close()] it can run the handshake again and
    resolve with a socket, but [closed] is never reset; every [execute]
    of that connection then rejects with "Connection is closed", and
    [close()] returns at once without sending Terminate or dropping the
    socket. *)
Theorem connect_after_close (env : Env) (fuel : nat) (s s' : Session) :
  closed s = true -> connect env fuel s = Done tt s' ->
  has_socket s' = true /\ closed s' = true /\ close s' = Done tt s'
  /\ forall f sql params,
       execute f sql params s' = Throw (ConnectionClosedError "Connection is closed") s'.
Proof.
  intros Hc H. unfold connect in H. cbv [bind get modify throw] in H.
  destruct (has_socket s) eqn:Hs; [discriminate|].
  pose proof (keeps_performHandshake env fuel (set_socket s true false)) as K.
  rewrite H in K. destruct K as [K1 K2]. cbn [closed has_socket set_socket] in K1, K2.
  rewrite Hc in K1. specialize (K2 eq_refl).
  split; [exact K2|]. split; [exact K1|]. split.
  - cbv [close bind get ret]. rewrite K1. reflexivity.
  - intros f sql params. cbv [execute bind get throw]. rewrite K1. reflexivity.
Qed.

Lemma connect_after_close_witness :
  closed reopened = true /\ connect env0 50 reopened = Done tt reconnected
  /\ close reconnected = Done tt reconnected.
Proof.
  assert (E : connect env0 50 reopened = Done tt reconnected) by (vm_compute; reflexivity).
  split; [reflexivity|]. split; [exact E|].
  exact (proj1 (proj2 (proj2 (connect_after_close env0 50 reopened reconnected eq_refl E)))).
Defined.

End CloseFacts.

Module TypeFacts.
Import WireFacts.

(** The converters read back what their [encode] writes: a boolean
    through type 16; a text through the text types (25, 1043, 1042, 1083)
    and through any type without a converter; a [bytea] (17) value is the
    buffer itself; and a text through bigint, numeric, date or timestamp
    when the context asks for that raw type. *)
Theorem converters_roundtrip (ctx : option RawTypes) (v : bool) (s : string) (oid : Z) (b : list Z) :
  decode 16 ctx (encode_bool v) = DBool v
  /\ (In oid [25; 1043; 1042; 1083] -> decode oid ctx (encode_text s) = DString s)
  /\ (~ In oid [20; 21; 23; 700; 701; 1700; 25; 1043; 1042; 16; 1082; 1083; 1114; 17] ->
      decode oid ctx (encode_text s) = DString s)
  /\ decode 17 ctx b = DBuffer b
  /\ (forall r, ctx = Some r ->
      (raw_bigint r = true -> decode 20 ctx (encode_text s) = DString s)
      /\ (raw_numeric r = true -> decode 1700 ctx (encode_text s) = DString s)
      /\ (raw_date r = true -> decode 1082 ctx (encode_text s) = DString s)
      /\ (raw_timestamp r = true -> decode 1114 ctx (encode_text s) = DString s)).
Proof.
  unfold encode_text, stringToBuffer.
  split; [destruct v; reflexivity|]. split; [|split; [|split; [reflexivity|]]].
  - intros H. unfold decode, bufferToString. rewrite string_of_bytes_of_string.
    destruct H as [<-|[<-|[<-|[<-|[]]]]]; reflexivity.
  - intros H. unfold decode, bufferToString. rewrite string_of_bytes_of_string.
    repeat match goal with
           | |- context [?x =? ?y] =>
               destruct (Z.eqb_spec x y); [subst; exfalso; apply H; cbn; tauto|]
           end.
    reflexivity.
  - intros r -> . unfold decode, bufferToString. rewrite string_of_bytes_of_string.
    split; [|split; [|split]]; intros H; rewrite H; reflexivity.
Qed.

Lemma parse_columns_cells (data : list Z) (fs : list FieldDescription) (bits : list Z)
  (i j : Z) (vals : list cell) :
  parse_columns data fs bits i = Some (vals, j) ->
  Forall2 (fun f c => c = CNull \/ exists b, c = CVal (typeOid f) b) fs vals.
Proof.
  revert bits i j vals. induction fs as [|f fs IH]; intros bits i j vals H; cbn [parse_columns] in H.
  - injection H as <- _. constructor.
  - destruct (parse_column data f (nth 0 bits 0) i) as [[v idx']|] eqn:Hc; [|discriminate].
    destruct (parse_columns data fs (tl bits) idx') as [[vs idx'']|] eqn:Hr; [|discriminate].
    injection H as <- _. constructor; [|exact (IH _ _ _ _ Hr)].
    unfold parse_column in Hc. destruct (_ =? 0).
    + injection Hc as <- _. left. reflexivity.
    + destruct (readInt32BE data i); [|discriminate]. injection Hc as <- _. right. eexists. reflexivity.
Qed.

(** Every non-null value of an array-mode row is decoded by the
    converter of its field's type with no context, so a bigint (20),
    numeric (1700), date (1082) or timestamp (1114) value is always
    parsed ([parseInt], [parseFloat], [new Date]), never kept as text,
    whatever raw types a caller asks for. *)
Theorem parseDataRow_values_parsed (data : list Z) (fs : list FieldDescription) (vals : list cell) :
  parseDataRow true data fs = Parsed (ArrayRow vals) ->
  Forall2 (fun f c => forall v, column_value c = Some v ->
             v = decode (typeOid f) None (match c with CVal _ b => b | CNull => [] end)
             /\ (In (typeOid f) [20; 1700; 1082; 1114] -> forall s, v <> DString s)) fs vals.
Proof.
  unfold parseDataRow. cbn [negb].
  destruct (parse_columns _ _ _ _) as [[vs j]|] eqn:H; [|discriminate].
  intros E. injection E as <-.
  refine (Forall2_impl _ _ (parse_columns_cells _ _ _ _ _ _ H)).
  intros f c [->|[b ->]] v Hv; [discriminate|].
  injection Hv as <-. split; [reflexivity|].
  intros Hin s. unfold decode.
  destruct Hin as [<-|[<-|[<-|[<-|[]]]]]; cbn; discriminate.
Qed.

Lemma parseDataRow_values_parsed_witness :
  parseDataRow true row_big [field_big]
  = Parsed (ArrayRow [CVal 20 (bytes_of_string "9007199254740993")])
  /\ Forall2 (fun f c => forall v, column_value c = Some v ->
             v = decode (typeOid f) None (match c with CVal _ b => b | CNull => [] end)
             /\ (In (typeOid f) [20; 1700; 1082; 1114] -> forall s, v <> DString s))
       [field_big] [CVal 20 (bytes_of_string "9007199254740993")].
Proof.
  assert (E : parseDataRow true row_big [field_big]
              = Parsed (ArrayRow [CVal 20 (bytes_of_string "9007199254740993")]))
    by (vm_compute; reflexivity).
  split; [exact E|]. exact (parseDataRow_values_parsed _ _ _ E).
Defined.

End TypeFacts.

(** ** The pool's lifecycle: [initialize], [release], eviction and [end] *)

Module PoolLifecycleFacts.

Import Pool.

Lemma take_task_last (ts : list task) (t : task) :
  take_task (List.length ts) (ts ++ [t]) = Some (t, ts).
Proof.
  induction ts as [|t' ts IH]; [reflexivity|]. cbn [List.length app take_task].
  rewrite IH. reflexivity.
Qed.

Lemma take_task_app (k : nat) (ts m : list task) (t : task) (rest : list task) :
  take_task k ts = Some (t, rest) -> take_task k (ts ++ m) = Some (t, rest ++ m).
Proof.
  revert k rest. induction ts as [|t' ts IH]; intros k rest H; [destruct k; discriminate|].
  destruct k as [|k]; cbn [take_task app] in *.
  - injection H as <- <-. reflexivity.
  - destruct (take_task k ts) as [[t1 r1]|] eqn:E; [|discriminate].
    injection H as <- <-. rewrite (IH k r1 E). reflexivity.
Qed.

(** [end()] rejects with "Pool is closing" the callers waiting when it
    is called and closes every connection then in the map; but a caller
    whose connection creation fails while [end()] awaits those closes
    (the map being non-empty) is queued afterwards with its timer, and
    survives [end()]: once [end()] has settled, the pool is closed and
    empty, the eviction timer is off, yet that caller is still waiting.
    [release] is then refused for every connection, [acquire()] and a
    second [end()] do nothing for it, and only its timeout rejects it. *)
Theorem end_leaves_waiter (s : PoolState) (k r : nat) (rest : list task) :
  closed s = false -> connections s <> [] ->
  take_task k (tasks s) = Some (TCreate (ForAcquire r), rest) ->
  step s CallEnd
  = Some (fst (end_start s),
          map (fun r => Rejected r (InterfaceError "Pool is closing")) (pendingAcquires s)
          ++ map (fun e => Closed (fst e)) (connections s))
  /\ exists s2 s3,
       step (fst (end_start s)) (Finish k false) = Some (s2, [])
       /\ pendingAcquires s2 = [r] /\ closing s2 = true
       /\ step s2 (Finish (List.length rest) true) = Some (s3, [])
       /\ closed s3 = true /\ closing s3 = false /\ connections s3 = []
       /\ evictionTimer s3 = false /\ tasks s3 = rest
       /\ pendingAcquires s3 = [r] /\ In r (timers s3)
       /\ (forall c, step s3 (Release c)
             = Some (s3, [ReleaseRejected c (InterfaceError "Connection does not belong to this pool")]))
       /\ (forall r', step s3 (Acquire r') = Some (s3, [Rejected r' (InterfaceError "Pool is closed")]))
       /\ step s3 CallEnd = Some (s3, [])
       /\ step s3 Tick = None
       /\ exists s4,
            step s3 (Timeout r)
            = Some (s4, [Rejected r (OperationalError ("Acquire timeout after "
                                      ++ js_string_of_Z (acquireTimeout (opts s)) ++ "ms"))])
            /\ pendingAcquires s4 = [].
Proof.
  intros Hc Hn Ht. split.
  - cbn [step]. unfold end_start. rewrite Hc. reflexivity.
  - unfold end_start. rewrite Hc. cbn [fst].
    set (tm := filter _ (timers s)).
    assert (Hsz : (Z.of_nat (List.length (connections s)) =? 0) = false).
    { destruct (connections s); [contradiction|]. reflexivity. }
    eexists _, _. split.
    { cbn [step tasks]. rewrite (take_task_app k (tasks s) [TEnd] _ rest Ht).
      cbn [settle]. unfold size. cbn [with_tasks connections availableConnections].
      rewrite Hsz, andb_false_r. reflexivity. }
    split; [reflexivity|]. split; [reflexivity|]. split.
    { cbn [step tasks enqueue with_pending with_tasks]. rewrite take_task_last. reflexivity. }
    cbn. split; [reflexivity|]. split; [reflexivity|]. split; [reflexivity|].
    split; [reflexivity|]. split; [reflexivity|]. split; [reflexivity|].
    split; [apply in_or_app; right; left; reflexivity|].
    split; [intros c; reflexivity|]. split; [intros r'; reflexivity|].
    split; [reflexivity|]. split; [reflexivity|].
    assert (Hr : existsb (Nat.eqb r) (tm ++ [r]) = true).
    { apply existsb_exists. exists r. split; [apply in_or_app; right; left; reflexivity|].
      apply Nat.eqb_refl. }
    rewrite Hr. eexists. split; [reflexivity|]. cbn. rewrite Nat.eqb_refl. reflexivity.
Qed.

Lemma end_leaves_waiter_witness :
  closed pool_waiter_race = false /\ connections pool_waiter_race <> []
  /\ take_task 0 (tasks pool_waiter_race) = Some (TCreate (ForAcquire 1), [])
  /\ step pool_waiter_race CallEnd = Some (fst (end_start pool_waiter_race), [Closed 0]).
Proof.
  assert (H1 : closed pool_waiter_race = false) by (vm_compute; reflexivity).
  assert (H2 : connections pool_waiter_race <> []) by (vm_compute; discriminate).
  assert (H3 : take_task 0 (tasks pool_waiter_race) = Some (TCreate (ForAcquire 1), []))
    by (vm_compute; reflexivity).
  split; [exact H1|]. split; [exact H2|]. split; [exact H3|].
  exact (proj1 (end_leaves_waiter pool_waiter_race 0 1 [] H1 H2 H3)).
Defined.


(** A connection creation that resolves after [end()] still enters the
    connection map of the closed pool: it is handed to its [acquire()]
    caller, or for a backfill closed at once while its entry stays in
    the map. *)
Theorem creation_after_end (s : PoolState) (k : nat) (o : owner) (rest : list task) :
  closed s = true -> take_task k (tasks s) = Some (TCreate o, rest) ->
  exists s' evs,
    step s (Finish k true) = Some (s', evs)
    /\ closed s' = true /\ has_conn s' (next_conn s) = true /\ size s' = size s + 1
    /\ (forall r, o = ForAcquire r -> evs = [Resolved r (next_conn s)])
    /\ (o = ForBackfill -> evs = [Closed (next_conn s)]).
Proof.
  intros Hc Ht. cbn [step]. rewrite Ht.
  assert (Hc0 : closed (with_tasks s rest) = true) by exact Hc.
  assert (Hs0 : size (with_tasks s rest) = size s) by reflexivity.
  change (next_conn s) with (next_conn (with_tasks s rest)).
  rewrite <- Hs0. clear Hc. revert Hc0. generalize (with_tasks s rest). clear s Ht Hs0. intros s Hc.
  cbn [settle add_connection].
  assert (Hh : forall s0 : PoolState, has_conn s0 (next_conn s) = true ->
            has_conn (touch_use s0 (next_conn s)) (next_conn s) = true).
  { intros s0 H. unfold has_conn, touch_use, with_conns in *. cbn [connections].
    apply existsb_exists in H as [e [He Hq]]. apply existsb_exists.
    eexists. split; [apply in_map_iff; exists e; split; [reflexivity | exact He]|].
    rewrite Hq. cbn. apply Nat.eqb_refl. }
  set (s1 := mkPool _ _ _ _ _ _ _ _ _ _ _).
  assert (H1 : has_conn s1 (next_conn s) = true).
  { unfold has_conn. apply existsb_exists. eexists. split.
    - unfold s1; cbn [connections]. apply in_or_app. right. left. reflexivity.
    - apply Nat.eqb_refl. }
  assert (S1 : size s1 = size s + 1).
  { unfold size, s1. cbn [connections]. rewrite length_app. cbn [List.length]. lia. }
  assert (C1 : closed s1 = true) by exact Hc.
  assert (Hw : forall av, has_conn (with_conns s1 (connections s1) av) (next_conn s) = true
                          /\ size (with_conns s1 (connections s1) av) = size s + 1)
    by (intros av; split; [exact H1 | exact S1]).
  clearbody s1.
  destruct o as [r| |].
  - do 2 eexists. split; [reflexivity|].
    split; [exact C1|]. split; [exact (Hh s1 H1)|]. split.
    + unfold size, touch_use, with_conns. cbn [connections]. rewrite length_map. exact S1.
    + split; [intros r' E; injection E as <-; reflexivity | discriminate].
  - rewrite C1. cbn [negb andb].
    do 2 eexists. split; [reflexivity|].
    split; [exact C1|]. split; [exact H1|]. split; [exact S1|].
    split; [discriminate | reflexivity].
  - do 2 eexists. split; [reflexivity|].
    unfold after_init. destruct (existsb _ _).
    + split; [exact C1|]. split; [apply Hw|]. split; [apply Hw|]. split; discriminate.
    + split; [exact C1|]. split; [apply Hw|]. split; [apply Hw|]. split; discriminate.
Qed.

Lemma creation_after_end_witness :
  closed pool_end_race = true
  /\ take_task 0 (tasks pool_end_race) = Some (TCreate (ForAcquire 0), [])
  /\ exists s' evs,
    step pool_end_race (Finish 0 true) = Some (s', evs)
    /\ closed s' = true /\ has_conn s' (next_conn pool_end_race) = true
    /\ size s' = size pool_end_race + 1
    /\ (forall r, ForAcquire 0 = ForAcquire r -> evs = [Resolved r (next_conn pool_end_race)])
    /\ (ForAcquire 0 = ForBackfill -> evs = [Closed (next_conn pool_end_race)]).
Proof.
  assert (H1 : closed pool_end_race = true) by (vm_compute; reflexivity).
  assert (H2 : take_task 0 (tasks pool_end_race) = Some (TCreate (ForAcquire 0), []))
    by (vm_compute; reflexivity).
  split; [exact H1|]. split; [exact H2|].
  exact (creation_after_end pool_end_race 0 (ForAcquire 0) [] H1 H2).
Defined.

(** Without validation on return and with no waiting caller, [release(c)]
    appends [c] to the available list even when it is already there, and
    [getStats().inUse] drops by one; two later [acquire()] calls then both
    receive the same connection. *)
Theorem release_duplicates (s : PoolState) (c : nat) :
  has_conn s c = true -> validateOnReturn (opts s) = false -> pendingAcquires s = [] ->
  (exists s', step s (Release c) = Some (s', [])
     /\ availableConnections s' = availableConnections s ++ [c]
     /\ count_occ Nat.eq_dec (availableConnections s') c
        = S (count_occ Nat.eq_dec (availableConnections s) c)
     /\ size s' = size s /\ inUse (getStats s') = inUse (getStats s) - 1)
  /\ (forall r1 r2 rest, availableConnections s = c :: c :: rest ->
      validateOnBorrow (opts s) = false -> closed s = false -> closing s = false ->
      exists s1 s2, step s (Acquire r1) = Some (s1, [Resolved r1 c])
                    /\ step s1 (Acquire r2) = Some (s2, [Resolved r2 c])).
Proof.
  intros Hc Hv Hp. split.
  - cbn [step]. unfold release. rewrite Hc, Hv. cbn [negb]. unfold release_handoff.
    cbn [touch pendingAcquires with_conns]. rewrite Hp.
    eexists. split; [reflexivity|]. cbn [availableConnections]. split; [reflexivity|].
    split; [cbn [availableConnections touch with_conns]; rewrite count_occ_app; cbn; destruct (Nat.eq_dec c c); [lia | congruence]|].
    unfold getStats, size, touch, with_conns. cbn [inUse connections availableConnections]. rewrite !length_map, length_app.
    cbn [List.length]. split; lia.
  - intros r1 r2 rest Ha Hb Hcl Hcg. cbn [step]. unfold acquire. rewrite Hcl, Hcg.
    unfold acquire_loop. rewrite Ha. cbn [with_conns opts]. rewrite Hb.
    eexists _, _. split; [reflexivity|].
    cbn. rewrite Hcl, Hcg, Hb. reflexivity.
Qed.

Lemma release_duplicates_witness :
  has_conn pool_idle_one 0 = true /\ validateOnReturn (opts pool_idle_one) = false
  /\ pendingAcquires pool_idle_one = []
  /\ exists s', step pool_idle_one (Release 0) = Some (s', [])
     /\ availableConnections s' = [0%nat; 0%nat] /\ inUse (getStats s') = -1.
Proof.
  split; [reflexivity|]. split; [reflexivity|]. split; [reflexivity|].
  destruct (proj1 (release_duplicates pool_idle_one 0 eq_refl eq_refl eq_refl))
    as [s' [H1 [H2 [_ [_ H5]]]]].
  exists s'. split; [exact H1|]. split; [exact H2|]. rewrite H5. reflexivity.
Defined.

Lemma fold_left_inv {A B} (P : A -> Prop) (f : A -> B -> A) (l : list B) (a : A) :
  P a -> (forall a b, In b l -> P a -> P (f a b)) -> P (fold_left f l a).
Proof.
  revert a. induction l as [|b l IH]; intros a Ha Hf; [exact Ha|]. cbn [fold_left].
  apply IH; [apply Hf; [left; reflexivity | exact Ha]|].
  intros a' b' Hb. apply Hf. right. exact Hb.
Qed.

Lemma map_fst_filter_key (l : list (nat * ConnectionMetadata)) (c : nat) :
  map fst (filter (fun e => negb (Nat.eqb (fst e) c)) l)
  = filter (fun k => negb (Nat.eqb k c)) (map fst l).
Proof.
  induction l as [|e l IH]; [reflexivity|]. cbn [filter map].
  destruct (negb (Nat.eqb (fst e) c)); cbn [map]; congruence.
Qed.

Lemma removeConnection_keys (s : PoolState) (c : nat) :
  keys (fst (removeConnection s c)) = filter (fun k => negb (Nat.eqb k c)) (keys s).
Proof. apply map_fst_filter_key. Qed.

Lemma filter_drop_one (l : list nat) (c : nat) :
  NoDup l -> (List.length l <= S (List.length (filter (fun k => negb (Nat.eqb k c)) l)))%nat.
Proof.
  induction l as [|k l IH]; intros Hd; cbn [List.length filter]; [lia|].
  inversion Hd as [|? ? Hk Hl]; subst.
  destruct (Nat.eqb_spec k c) as [->|Hne].
  - cbn [negb List.length].
    rewrite forallb_filter_id; [lia|].
    apply forallb_forall. intros x Hx. destruct (Nat.eqb_spec x c); [subst; contradiction|reflexivity].
  - cbn [negb List.length]. specialize (IH Hl). lia.
Qed.

Lemma remove_all_spec (cs : list nat) (s : PoolState) :
  snd (remove_all s cs) = map Closed cs
  /\ opts (fst (remove_all s cs)) = opts s
  /\ (forall k, In k (keys (fst (remove_all s cs))) <-> In k (keys s) /\ ~ In k cs)
  /\ (NoDup (keys s) -> NoDup (keys (fst (remove_all s cs)))
      /\ size s <= size (fst (remove_all s cs)) + Z.of_nat (List.length cs)).
Proof.
  revert s. induction cs as [|c cs IH]; intros s.
  - cbn. split; [reflexivity|]. split; [reflexivity|]. split; [intros k; tauto|].
    intros Hd. split; [exact Hd|]. lia.
  - cbn [remove_all]. destruct (removeConnection s c) as [s1 e1] eqn:Hr.
    destruct (remove_all s1 cs) as [s2 e2] eqn:Hr2. cbn [fst snd].
    assert (K1 : keys s1 = filter (fun k => negb (Nat.eqb k c)) (keys s))
      by (rewrite <- removeConnection_keys, Hr; reflexivity).
    assert (E1 : e1 = [Closed c]) by (unfold removeConnection in Hr; congruence).
    assert (O1 : opts s1 = opts s) by (unfold removeConnection in Hr; injection Hr as <- _; reflexivity).
    destruct (IH s1) as [IH1 [IH2 [IH3 IH4]]]. rewrite Hr2 in IH1, IH2, IH3, IH4. cbn [fst snd] in *.
    split; [rewrite E1, IH1; reflexivity|]. split; [congruence|]. split.
    + intros k. rewrite IH3, K1, filter_In. cbn [In].
      destruct (Nat.eqb_spec k c); cbn [negb]; intuition congruence.
    + intros Hd. assert (Hd1 : NoDup (keys s1)) by (rewrite K1; apply NoDup_filter, Hd).
      destruct (IH4 Hd1) as [Hd2 Hs2]. split; [exact Hd2|].
      pose proof (filter_drop_one (keys s) c Hd) as D. rewrite <- K1 in D.
      unfold keys in D. rewrite !length_map in D.
      unfold size in *. cbn [List.length]. lia.
Qed.

(** [evictIdleConnections] never takes the pool below [min], removes only
    available connections, and emits a close event for exactly the
    connections it removes. *)
Theorem evictIdle_keeps_min (s : PoolState) :
  NoDup (keys s) ->
  let s' := fst (evictIdleConnections s) in
  let evs := snd (evictIdleConnections s) in
  (min (opts s) <= size s -> min (opts s) <= size s')
  /\ (forall c, In c (keys s) -> is_available s c = false -> In c (keys s'))
  /\ (forall c, In c (keys s) -> ~ In c (keys s') -> In (Closed c) evs)
  /\ (forall e, In e evs -> exists c, e = Closed c /\ In c (keys s) /\ ~ In c (keys s')
                                     /\ is_available s c = true).
Proof.
  intros Hd s' evs. unfold evictIdleConnections in s', evs.
  set (toRemove := fold_left _ (connections s) []) in s', evs.
  assert (HT : Z.of_nat (List.length toRemove) <= Z.max 0 (size s - min (opts s))
               /\ forall x, In x toRemove -> is_available s x = true /\ In x (keys s)).
  { unfold toRemove.
    apply (fold_left_inv (fun acc => Z.of_nat (List.length acc) <= Z.max 0 (size s - min (opts s))
               /\ forall x, In x acc -> is_available s x = true /\ In x (keys s))).
    - split; [cbn; lia | intros x []].
    - intros acc e He [Hl Hx].
      destruct (is_available s (fst e)) eqn:Ha; cbn [andb]; [|split; assumption].
      destruct (_ <? _); cbn [andb]; [|split; assumption].
      destruct (Z.ltb_spec (min (opts s)) (size s - Z.of_nat (List.length acc))) as [Hm|Hm];
        [|split; assumption].
      split.
      + rewrite length_app. cbn [List.length]. lia.
      + intros x Hin. apply in_app_or in Hin as [Hin|[<-|[]]]; [apply Hx, Hin|].
        split; [exact Ha|]. apply in_map, He. }
  destruct HT as [Hlen Hmem].
  destruct (remove_all_spec toRemove s) as [E1 [E2 [E3 E4]]].
  fold s' evs in E1, E2, E3, E4.
  split; [|split; [|split]].
  - intros Hm. destruct (E4 Hd) as [_ Hs]. lia.
  - intros c Hc Ha. apply E3. split; [exact Hc|]. intros Hin.
    destruct (Hmem c Hin) as [Ha' _]. congruence.
  - intros c Hc Hn. rewrite E1. apply in_map.
    destruct (In_dec Nat.eq_dec c toRemove) as [Hin|Hin]; [exact Hin|].
    exfalso. apply Hn, E3. split; assumption.
  - intros e He. rewrite E1 in He. apply in_map_iff in He as [c [<- Hc]].
    exists c. destruct (Hmem c Hc) as [Ha Hk]. split; [reflexivity|]. split; [exact Hk|].
    split; [|exact Ha]. intros Hin. apply E3 in Hin as [_ Hn]. exact (Hn Hc).
Qed.

Lemma evictIdle_keeps_min_witness :
  NoDup (keys pool_two_idle)
  /\ min (opts pool_two_idle) <= size (fst (evictIdleConnections pool_two_idle)).
Proof.
  assert (Hd : NoDup (keys pool_two_idle)).
  { constructor; [intros [H|H]; [discriminate | destruct H] | constructor; [intros [] | constructor]]. }
  split; [exact Hd|].
  exact (proj1 (evictIdle_keeps_min pool_two_idle Hd) ltac:(vm_compute; discriminate)).
Defined.

Lemma init_step (o : PoolOptions) (n k : nat) (ok cl : bool) :
  step (init_state o (S n) k false cl) (Finish 0 ok)
  = Some (init_state o n (if ok then S k else k) (Nat.eqb n 0) cl, []).
Proof.
  destruct ok, n; cbn; unfold init_state; try reflexivity;
    rewrite seq_S, map_app; reflexivity.
Qed.

Lemma init_run (o : PoolOptions) (oks : list bool) (k : nat) (cl : bool) :
  oks <> [] ->
  run (init_state o (List.length oks) k false cl) (map (fun ok => Finish 0 ok) oks)
  = Some (init_state o 0 (k + count_occ Bool.bool_dec oks true) true cl).
Proof.
  revert k. induction oks as [|ok oks IH]; intros k Hne; [congruence|].
  cbn [List.length map run]. rewrite init_step.
  destruct oks as [|ok' oks'].
  - destruct ok; cbn; f_equal; f_equal; lia.
  - rewrite IH by discriminate. cbn [Nat.eqb List.length].
    f_equal. f_equal. cbn [count_occ]. destruct ok, (Bool.bool_dec true true), (Bool.bool_dec false true);
      try congruence; try lia.
Qed.

Lemma init_run_prefix (o : PoolOptions) (oks : list bool) (j k : nat) (cl : bool) :
  (j < List.length oks)%nat ->
  run (init_state o (List.length oks) k false cl) (map (fun ok => Finish 0 ok) (firstn j oks))
  = Some (init_state o (List.length oks - j) (k + count_occ Bool.bool_dec (firstn j oks) true) false cl).
Proof.
  revert oks k. induction j as [|j IH]; intros oks k Hj.
  - cbn. rewrite Nat.sub_0_r, Nat.add_0_r. reflexivity.
  - destruct oks as [|ok oks]; [cbn in Hj; lia|].
    cbn [firstn map run List.length]. rewrite init_step.
    destruct (List.length oks) as [|n] eqn:En; [cbn in Hj; lia|].
    cbn [Nat.eqb]. rewrite <- En, IH by (cbn in Hj; lia).
    cbn [Nat.sub]. f_equal. f_equal. cbn [count_occ].
    destruct ok, (Bool.bool_dec true true), (Bool.bool_dec false true); try congruence; lia.
Qed.

Lemma remove_all_keep (s : PoolState) (cs : list nat) :
  tasks (fst (remove_all s cs)) = tasks s /\ evictionTimer (fst (remove_all s cs)) = evictionTimer s.
Proof.
  revert s. induction cs as [|c cs IH]; intros s; [split; reflexivity|].
  cbn [remove_all removeConnection].
  destruct (remove_all _ cs) as [s2 e2] eqn:E. cbn [fst].
  destruct (IH (with_conns s (filter (fun e => negb (Nat.eqb (fst e) c)) (connections s))
                  (remove_first c (availableConnections s)))) as [H1 H2].
  rewrite E in H1, H2. cbn [fst] in H1, H2. split; assumption.
Qed.

Lemma acquire_loop_keep (s : PoolState) (r : nat) :
  existsb is_init_task (tasks (fst (acquire_loop s r))) = existsb is_init_task (tasks s)
  /\ evictionTimer (fst (acquire_loop s r)) = evictionTimer s.
Proof.
  unfold acquire_loop. destruct (availableConnections s) as [|c av].
  - destruct (size s <? max (opts s)); cbn; rewrite ?existsb_app; cbn; rewrite ?orb_false_r;
      split; reflexivity.
  - cbn [with_conns opts]. destruct (validateOnBorrow (opts s)); cbn;
      rewrite ?existsb_app; cbn; rewrite ?orb_false_r; split; reflexivity.
Qed.

Lemma removeConnection_keep (s : PoolState) (c : nat) :
  tasks (fst (removeConnection s c)) = tasks s
  /\ evictionTimer (fst (removeConnection s c)) = evictionTimer s.
Proof. split; reflexivity. Qed.

Lemma after_init_spec (x : PoolState) :
  existsb is_init_task (tasks (after_init x)) = existsb is_init_task (tasks x)
  /\ (evictionTimer (after_init x) = true ->
      evictionTimer x = true \/ existsb is_init_task (tasks x) = false).
Proof.
  unfold after_init. destruct (existsb is_init_task (tasks x)) eqn:E; cbn; auto.
Qed.

(** No step starts an initial creation, and only the settling of the
    last initial creation turns the eviction timer on. *)
Lemma step_init_timer (s : PoolState) (l : label) (s' : PoolState) (evs : list pool_event) :
  step s l = Some (s', evs) ->
  (existsb is_init_task (tasks s') = true -> existsb is_init_task (tasks s) = true)
  /\ (evictionTimer s' = true -> evictionTimer s = true \/ existsb is_init_task (tasks s') = false).
Proof.
  destruct l as [r|c|k ok|r| |dt|]; cbn [step]; intros H.
  - injection H as H. apply (f_equal fst) in H; cbn [fst] in H. subst s'. unfold acquire.
    destruct (closed s); [auto|]. destruct (closing s); [auto|].
    destruct (acquire_loop_keep s r) as [H1 H2]. rewrite H1, H2. auto.
  - injection H as H. apply (f_equal fst) in H; cbn [fst] in H. subst s'. unfold release.
    destruct (negb (has_conn s c)); [auto|].
    destruct (validateOnReturn (opts s)).
    + cbn. rewrite existsb_app. cbn. rewrite orb_false_r. auto.
    + unfold release_handoff. cbn [touch with_conns pendingAcquires].
      destruct (pendingAcquires s); cbn; auto.
  - destruct (take_task k (tasks s)) as [[t rest]|] eqn:Et; [|discriminate].
    injection H as H. apply (f_equal fst) in H; cbn [fst] in H.
    assert (Ht : existsb is_init_task (tasks s) = is_init_task t || existsb is_init_task rest).
    { clear H. revert k rest Et. induction (tasks s) as [|t' ts IH]; intros k rest Et;
        [destruct k; discriminate|].
      destruct k as [|k]; cbn [take_task] in Et.
      - injection Et as <- <-. reflexivity.
      - destruct (take_task k ts) as [[t1 r1]|] eqn:E; [|discriminate].
        injection Et as <- <-. cbn [existsb]. rewrite (IH k r1 E).
        destruct (is_init_task t'), (is_init_task t1); reflexivity. }
    rewrite Ht. clear Ht Et.
    assert (Hk : forall x : PoolState,
               existsb is_init_task (tasks x) = existsb is_init_task rest ->
               evictionTimer x = evictionTimer s ->
               (existsb is_init_task (tasks x) = true ->
                is_init_task t || existsb is_init_task rest = true)
               /\ (evictionTimer x = true -> evictionTimer s = true
                   \/ existsb is_init_task (tasks x) = false)).
    { intros x E1 E2. rewrite E1, E2. split; [intros ->; apply orb_true_r | auto]. }
    subst s'.
    destruct t as [[r| |]|r c|c|], ok; cbn [settle add_connection fst];
      repeat match goal with |- context [if ?b then _ else _] => destruct b end;
      try (apply Hk; cbn; rewrite ?existsb_app; cbn; rewrite ?orb_false_r; reflexivity).
    + match goal with |- context [after_init ?x] => destruct (after_init_spec x) as [A1 A2] end.
      split; [intros _; reflexivity|].
      intros E. destruct (A2 E) as [E'|E']; [left; exact E' | right; rewrite A1; exact E'].
    + destruct (after_init_spec (with_tasks s rest)) as [A1 A2].
      split; [intros _; reflexivity|].
      intros E. destruct (A2 E) as [E'|E']; [left; exact E' | right; rewrite A1; exact E'].
    + destruct (removeConnection (with_tasks s rest) c) as [s1 e1] eqn:E1.
      destruct (acquire_loop s1 r) as [s2 e2] eqn:E2.
      destruct (acquire_loop_keep s1 r) as [K1 K2]. rewrite E2 in K1, K2. cbn [fst] in *.
      assert (R : tasks s1 = rest /\ evictionTimer s1 = evictionTimer s)
        by (unfold removeConnection in E1; injection E1 as <- _; split; reflexivity).
      destruct R as [R1 R2]. apply Hk; [rewrite K1, R1 | rewrite K2, R2]; reflexivity.
    + unfold release_handoff. cbn [touch with_conns pendingAcquires with_tasks].
      destruct (pendingAcquires s); apply Hk; reflexivity.
  - destruct (existsb (Nat.eqb r) (timers s)); [|discriminate].
    injection H as <- _. cbn. auto.
  - destruct (evictionTimer s) eqn:Ev; [|discriminate].
    injection H as H. apply (f_equal fst) in H; cbn [fst] in H. subst s'.
    unfold eviction_tick, evictIdleConnections.
    match goal with |- context [remove_all s ?l] =>
      destruct (remove_all_keep s l) as [T1 _]; destruct (remove_all s l) as [s1 e1] end.
    cbn [fst] in T1. unfold evictExpiredConnections.
    match goal with |- context [remove_all s1 ?l] =>
      destruct (remove_all_keep s1 l) as [T2 _]; destruct (remove_all s1 l) as [s2 e2] end.
    cbn [fst] in T2 |- *.
    split; [|intros _; left; reflexivity].
    unfold backfillConnections. intros Hx. rewrite <- T1, <- T2.
    destruct (_ =? 0); [exact Hx|]. destruct (0 <? _); [|exact Hx].
    cbn [tasks with_tasks] in Hx. rewrite existsb_app in Hx.
    apply orb_true_iff in Hx as [Hx|Hx]; [exact Hx|]. exfalso.
    apply existsb_exists in Hx as [t [Ht Hi]]. apply repeat_spec in Ht. subst t. discriminate.
  - destruct (0 <=? dt); [|discriminate]. injection H as <- _. cbn. auto.
  - injection H as H. apply (f_equal fst) in H; cbn [fst] in H. subst s'. unfold end_start.
    destruct (closed s); [auto|]. cbn. rewrite existsb_app. cbn. rewrite orb_false_r.
    split; [auto | discriminate].
Qed.

Lemma run_init_timer (s : PoolState) (ls : list label) (s' : PoolState) :
  (evictionTimer s = true -> existsb is_init_task (tasks s) = false) ->
  run s ls = Some s' ->
  evictionTimer s' = true -> existsb is_init_task (tasks s') = false.
Proof.
  revert s. induction ls as [|l ls IH]; intros s Hs Hr; cbn [run] in Hr.
  - injection Hr as <-. exact Hs.
  - destruct (step s l) as [[s1 e1]|] eqn:E; [|discriminate].
    apply (IH s1); [|exact Hr].
    destruct (step_init_timer s l s1 e1 E) as [H1 H2].
    intros Ht. destruct (H2 Ht) as [Ht0|Hf]; [|exact Hf].
    destruct (existsb is_init_task (tasks s1)) eqn:E1; [|reflexivity].
    rewrite (Hs Ht0) in H1. discriminate (H1 eq_refl).
Qed.

(** With [min > 0], the eviction timer is off as long as an initial
    creation is in flight, whatever steps interleave; when the initial
    creations settle one after the other, none of them produces an
    event (a failed one is dropped without error), the timer stays off
    until the last one, and then the timer is on, the available list
    holds exactly the connections that were created, in order, and the
    pool is open with nothing in flight. *)
Lemma initialize_settles (o : PoolOptions) (s0 : PoolState) (oks : list bool) :
  new_pool o = Some s0 -> 0 < o.(min) -> List.length oks = Z.to_nat o.(min) ->
  (forall ls s, run s0 ls = Some s -> evictionTimer s = true ->
                existsb is_init_task (tasks s) = false)
  /\ (forall j, (j < List.length oks)%nat ->
        exists s s', run s0 (map (fun ok => Finish 0 ok) (firstn j oks)) = Some s
          /\ existsb is_init_task (tasks s) = true
          /\ s.(evictionTimer) = false /\ step s Tick = None
          /\ step s (Finish 0 (nth j oks false)) = Some (s', []))
  /\ exists s, run s0 (map (fun ok => Finish 0 ok) oks) = Some s /\
    s.(evictionTimer) = true /\ s.(tasks) = [] /\ s.(pendingAcquires) = [] /\
    s.(availableConnections) = seq 0 (count_occ Bool.bool_dec oks true) /\
    keys s = seq 0 (count_occ Bool.bool_dec oks true) /\
    s.(closing) = false /\ s.(closed) = false.
Proof.
  intros Hn Hm Hl. unfold new_pool in Hn.
  destruct ((min o <? 0) || (max o <? 1) || (max o <? min o)); [discriminate|].
  injection Hn as <-.
  assert (Hz : (min o =? 0) = false) by (apply Z.eqb_neq; lia).
  rewrite Hz.
  assert (Hs : mkPool o 0 [] [] [] [] (repeat (TCreate ForInit) (Z.to_nat (min o))) false false false 0
               = init_state o (List.length oks) 0 false false) by (rewrite Hl; reflexivity).
  rewrite Hs. split; [|split].
  - intros ls s Hr. exact (run_init_timer (init_state o (List.length oks) 0 false false) ls s ltac:(intros Hf; unfold init_state in Hf; cbn in Hf; discriminate Hf) Hr).
  - intros j Hj. rewrite (init_run_prefix o oks j 0 false Hj).
    destruct (List.length oks - j)%nat as [|n] eqn:En; [lia|].
    eexists _, _. split; [reflexivity|]. split; [reflexivity|].
    split; [reflexivity|]. split; [reflexivity|]. apply init_step.
  - rewrite init_run.
    + eexists; split; [reflexivity|]. cbn. unfold keys. cbn. rewrite map_map. cbn.
      rewrite map_id. repeat split; reflexivity.
    + intros ->. cbn in Hl. lia.
Qed.

Lemma initialize_settles_witness :
  exists s0, new_pool (mkPoolOptions 2 4 30000 30000 1800000 false false) = Some s0 /\
  exists s, run s0 (map (fun ok => Finish 0 ok) [true; false]) = Some s /\
    s.(evictionTimer) = true /\ s.(tasks) = [] /\ s.(pendingAcquires) = [] /\
    s.(availableConnections) = seq 0 (count_occ Bool.bool_dec [true; false] true) /\
    keys s = seq 0 (count_occ Bool.bool_dec [true; false] true) /\
    s.(closing) = false /\ s.(closed) = false.
Proof.
  eexists. split; [reflexivity|].
  apply (initialize_settles (mkPoolOptions 2 4 30000 30000 1800000 false false));
    [reflexivity | cbn; lia | reflexivity].
Defined.



End PoolLifecycleFacts.
